(** * osu-ahr lobby plugins: MatchAborter and MapRecaster

    A shallow embedding of [src/plugins/MatchAborter.ts] and of the
    MapRecaster plugin.  A plugin is an object whose handlers mutate
    its fields and call back into the lobby; a handler is embedded as a
    computation over the plugin state that also records, in order, the
    calls it makes on the lobby ([SendMessage], [AbortMatch]).  Calls
    to the logger have no effect on either and are left out.

    JavaScript numbers that the code only counts or compares for
    equality (set sizes, the delay, authority levels) are embedded as
    integers.  The two rates and the minimum are doubles, and the
    products the getters compute are rounded as IEEE 754 binary64
    rounds them (see [JS] below). *)

From Stdlib Require Import QArith Qround Qminmax DecimalString SpecFloat.
From stdpp Require Import gmap strings list fin_maps.

Open Scope Z_scope.

(** ** Lobby calls and the handler monad *)

(** What a plugin asks of the lobby. *)
Inductive Effect : Type :=
| SendMessage (message : string)
| AbortMatch.

Global Instance Effect_eq_dec : EqDecision Effect.
Proof. solve_decision. Defined.

(** A handler reads and writes a state [S], returns an [A] and appends
    to the log of lobby calls. *)
Definition M (S A : Type) : Type := S -> A * S * list Effect.

Definition bind {S A B} (m : M S A) (k : A -> M S B) : M S B := fun s =>
  let '(a, s1, out1) := m s in
  let '(b, s2, out2) := k a s1 in
  (b, s2, out1 ++ out2).

Global Instance M_ret {S} : MRet (M S) := fun A a s => (a, s, []).
Global Instance M_bind {S} : MBind (M S) := fun A B k m => bind m k.

Notation "'do' x <- m ; k" := (bind m (fun x => k))
  (at level 10, x name, m at level 100, k at level 200, only parsing).

Definition gets {S A} (f : S -> A) : M S A := fun s => (f s, s, []).
Definition modify {S} (f : S -> S) : M S unit := fun s => (tt, f s, []).
Definition call {S} (e : Effect) : M S unit := fun s => (tt, s, [e]).

Definition state_of {S A} (r : A * S * list Effect) : S := snd (fst r).
Definition calls_of {S A} (r : A * S * list Effect) : list Effect := snd r.
Definition value_of {S A} (r : A * S * list Effect) : A := fst (fst r).

(** How many times the lobby is asked to abort. *)
Definition aborts (out : list Effect) : nat :=
  length (filter (fun e => e = AbortMatch) out).

(** ** Numbers *)

Module JS.

(** A JavaScript number: an IEEE 754 binary64 value. *)
Abbreviation number := spec_float (only parsing).

(** The number a set size is: a non-negative integer, rounded to
    binary64 (exactly, below 2^53). *)
Definition of_nat (n : nat) : number :=
  binary_normalize 53 1024 (Z.of_nat n) 0 false.

(** [x * y]: the product rounded to the nearest binary64, ties to
    even, with the IEEE rules for zeros, infinities and NaN. *)
Definition mul (x y : number) : number := SFmul 53 1024 x y.

(** Neither NaN nor an infinity. *)
Definition real (x : number) : bool :=
  match x with
  | S754_zero _ | S754_finite _ _ _ => true
  | S754_infinity _ | S754_nan => false
  end.

(** The rational a real number is: [(-1)^s * m * 2^e]. *)
Definition value (x : number) : Q :=
  match x with
  | S754_finite s m e =>
      match e with
      | Zneg k => cond_Zopp s (Zpos m) # (2 ^ k)
      | _ => inject_Z (cond_Zopp s (Zpos m) * 2 ^ e)
      end
  | _ => 0
  end.

(** [Math.max(x, y)]: NaN if either is NaN, else the larger; of two
    zeros, the positive one. *)
Definition max (x y : number) : number :=
  match x, y with
  | S754_nan, _ | _, S754_nan => S754_nan
  | S754_infinity false, _ | _, S754_infinity false => S754_infinity false
  | S754_infinity true, _ => y
  | _, S754_infinity true => x
  | _, _ =>
      if Qle_bool (value x) (value y) then
        if Qle_bool (value y) (value x) then
          match x with S754_zero true => y | _ => x end
        else y
      else x
  end.

(** What [Math.ceil] returns: NaN, an infinity, or an integer (every
    integer it returns is a binary64 value; [-0] is not told from
    [0], which no comparison does either). *)
Inductive integral : Type :=
| NaN
| Infinity (negative : bool)
| Int (z : Z).

(** [Math.ceil(x)]: the least integer not below [x]. *)
Definition ceil (x : number) : integral :=
  match x with
  | S754_nan => NaN
  | S754_infinity s => Infinity s
  | _ => Int (Qceiling (value x))
  end.

(** [r <= n] for [r] returned by [Math.ceil] and [n] a set size:
    false for NaN, and between integers the comparison of doubles is
    the comparison of integers. *)
Definition le_nat (r : integral) (n : nat) : bool :=
  match r with
  | NaN => false
  | Infinity s => s
  | Int z => z <=? Z.of_nat n
  end.

(** The product is at most [n]: what [Math.ceil(p) <= n] decides. *)
Definition at_most (p : number) (n : nat) : Prop :=
  match p with
  | S754_nan => False
  | S754_infinity s => s = true
  | _ => (value p <= inject_Z (Z.of_nat n))%Q
  end.

End JS.

(** ** MapRecaster *)

Module MapRecaster.

(** A player is known by its id. *)
Abbreviation Player := nat (only parsing).

(** The part of the lobby the plugin reads, and who the host is. *)
Record Lobby : Type := { mapId : N; host : option Player }.

Record State : Type := { canRecast : bool }.

(** Field initialiser [canRecast: boolean = true]. *)
Definition init : State := {| canRecast := true |}.

Inductive BanchoResponseType : Type :=
| BeatmapChanged
| OtherResponse (tag : nat).

(** [String(mapId)] for a non-negative integer. *)
Definition number_to_string (n : N) : string :=
  NilZero.string_of_uint (N.to_uint n).

Definition onReceivedBanchoResponse (type : BanchoResponseType)
  : M State unit :=
  match type with
  | BeatmapChanged => modify (fun _ => {| canRecast := true |})
  | OtherResponse _ => mret tt
  end.

Definition onReceivedChatCommand (lobby : Lobby)
    (command param : string) (player : Player) : M State unit :=
  if String.eqb command "!update" then
    do can <- gets canRecast;
    if can then
      modify (fun _ => {| canRecast := false |});;
      call (SendMessage ("!mp map " ++ number_to_string (mapId lobby)))
    else mret tt
  else mret tt.

Inductive Event : Type :=
| ReceivedChatCommand (command param : string) (player : Player)
| ReceivedBanchoResponse (type : BanchoResponseType).

Definition handle (lobby : Lobby) (ev : Event) : M State unit :=
  match ev with
  | ReceivedChatCommand c a p => onReceivedChatCommand lobby c a p
  | ReceivedBanchoResponse t => onReceivedBanchoResponse t
  end.

Fixpoint run (evs : list (Lobby * Event)) : M State unit :=
  match evs with
  | [] => mret tt
  | (lobby, ev) :: rest => handle lobby ev;; run rest
  end.

Definition is_selection_changed (ev : Event) : bool :=
  match ev with
  | ReceivedBanchoResponse BeatmapChanged => true
  | _ => false
  end.

(** The number of selection-changed events in a history. *)
Definition selection_changes (evs : list (Lobby * Event)) : nat :=
  length (filter (fun e => is_selection_changed (snd e) = true) evs).

(** The message that recasts the map. *)
Definition recast (lobby : Lobby) : Effect :=
  SendMessage ("!mp map " ++ number_to_string (mapId lobby)).

End MapRecaster.

(** ** MatchAborter *)

Module MatchAborter.

Abbreviation Player := nat (only parsing).

(** A timer handle, as returned by [setTimeout]. *)
Abbreviation Handle := nat (only parsing).

Record MatchAborterOption : Type := {
  vote_rate : JS.number;
  vote_min : JS.number;
  auto_abort_rate : JS.number;
  auto_abort_delay_ms : Z
}.

(** The part of [ILobby] the plugin reads.  The lobby keeps these
    itself; a handler sees the values they have when its event is
    delivered. *)
Record Lobby : Type := {
  isMatching : bool;
  host : option Player;
  players : gset Player;
  playersInGame : gset Player;
  playersFinished : gset Player
}.

(** *** VoteCounter *)

Module VoteCounter.

(** Modelled from the spec: the class [VoteCounter] imported from
    [./VoteCounter] is missing from the sources; this is the
    QuorumVoter of the specification (section 4.2): a roster of
    eligible voters, the set of those who voted, and the policy
    [rate], [minimum].  [RemoveVoter] is [removeParticipant],
    [Clear] is [clearVotes], [Vote] is [castVote], [required] is
    [threshold], [count] is the size of the vote set;
    [RemoveAllVoters] followed by [AddVoter] for each player is
    [setRoster] with the vote set cleared, as at match start. *)
Record t : Type := {
  requiredRate : JS.number;
  requiredMin : JS.number;
  roster : gset Player;
  votes : gset Player
}.

(** Modelled from the spec: the constructor is missing; Roster and
    VoteSet are created empty, with the policy given. *)
Definition create (rate minimum : JS.number) : t :=
  {| requiredRate := rate; requiredMin := minimum;
     roster := ∅; votes := ∅ |}.

(** The counter with another roster and vote set, same policy. *)
Definition with_sets (v : t) (r s : gset Player) : t :=
  {| requiredRate := requiredRate v; requiredMin := requiredMin v;
     roster := r; votes := s |}.

(** Modelled from the spec: [AddVoter] is missing; the participant
    joins the Roster, the votes cast stay. *)
Definition AddVoter (p : Player) (v : t) : t :=
  with_sets v (roster v ∪ {[p]}) (votes v).

(** Modelled from the spec: [RemoveVoter] is missing;
    [removeParticipant] removes from Roster and VoteSet, and does
    nothing if the participant is absent. *)
Definition RemoveVoter (p : Player) (v : t) : t :=
  with_sets v (roster v ∖ {[p]}) (votes v ∖ {[p]}).

(** Modelled from the spec: [RemoveAllVoters] is missing; [setRoster]
    with nobody: a participant not in the new Roster loses its vote. *)
Definition RemoveAllVoters (v : t) : t := with_sets v ∅ ∅.

(** Modelled from the spec: [Clear] is missing; [clearVotes] empties
    VoteSet and keeps Roster untouched. *)
Definition Clear (v : t) : t := with_sets v (roster v) ∅.

(** Modelled from the spec: [Vote] is missing; [castVote] is accepted
    iff the participant is on the Roster and not in VoteSet, and a
    vote that is not accepted changes nothing. *)
Definition Vote (p : Player) (v : t) : bool * t :=
  if bool_decide (p ∈ roster v) && negb (bool_decide (p ∈ votes v))
  then (true, with_sets v (roster v) (votes v ∪ {[p]}))
  else (false, v).

(** Modelled from the spec: [count] is missing; the size of VoteSet. *)
Definition count (v : t) : Z := Z.of_nat (size (votes v)).

(** Modelled from the spec: [required] is missing; [threshold] is
    [ceil(max(|Roster| * rate, minimum))], computed on demand, in the
    numbers of the language. *)
Definition required (v : t) : JS.integral :=
  JS.ceil (JS.max (JS.mul (JS.of_nat (size (roster v))) (requiredRate v))
                  (requiredMin v)).

(** Modelled from the spec: [passed] is missing;
    [|VoteSet| > 0 AND |VoteSet| >= threshold()]. *)
Definition passed (v : t) : bool :=
  (0 <? count v) && JS.le_nat (required v) (size (votes v)).

End VoteCounter.

(** *** Plugin state and the timers of the runtime *)

(** [abortTimer] and [voting] are the fields of the plugin.  [pending]
    is the runtime's table of timers that are set and neither cleared
    nor run yet, with the delay each was set for; [nextHandle] is the
    next handle [setTimeout] returns.  The plugin passes one callback
    to [setTimeout], so the table does not record it. *)
Record State : Type := {
  abortTimer : option Handle;
  voting : VoteCounter.t;
  pending : gmap Handle Z;
  nextHandle : Handle
}.

Definition set_abortTimer (t : option Handle) (s : State) : State :=
  {| abortTimer := t; voting := voting s;
     pending := pending s; nextHandle := nextHandle s |}.

Definition set_voting (v : VoteCounter.t) (s : State) : State :=
  {| abortTimer := abortTimer s; voting := v;
     pending := pending s; nextHandle := nextHandle s |}.

Definition update_voting (f : VoteCounter.t -> VoteCounter.t) (s : State)
  : State := set_voting (f (voting s)) s.

(** [setTimeout(callback, delay)]: a fresh handle, now pending. *)
Definition setTimeout (delay : Z) : M State Handle := fun s =>
  (nextHandle s,
   {| abortTimer := abortTimer s; voting := voting s;
      pending := <[nextHandle s := delay]> (pending s);
      nextHandle := S (nextHandle s) |},
   []).

(** [clearTimeout(h)]: the timer is no longer pending; clearing a
    timer that already ran or was cleared does nothing. *)
Definition clearTimeout (h : Handle) : M State unit :=
  modify (fun s =>
    {| abortTimer := abortTimer s; voting := voting s;
       pending := delete h (pending s); nextHandle := nextHandle s |}).

Section Plugin.

Context (opt : MatchAborterOption).

(** The rendering [VoteCounter.toString], missing with its class. *)
Context (toString : VoteCounter.t -> string).

Definition init : State :=
  {| abortTimer := None;
     voting := VoteCounter.create (vote_rate opt) (vote_min opt);
     pending := ∅; nextHandle := 0%nat |}.

Definition stopTimer : M State unit :=
  do t <- gets abortTimer;
  match t with
  | Some h => clearTimeout h;; modify (set_abortTimer None)
  | None => mret tt
  end.

Definition doAbort : M State unit :=
  stopTimer;; call AbortMatch.

(** The callback given to [setTimeout]. *)
Definition abortTimerAction : M State unit :=
  do t <- gets abortTimer;
  match t with
  | Some _ => doAbort
  | None => mret tt
  end.

Definition startTimer : M State unit :=
  if auto_abort_delay_ms opt =? 0 then mret tt
  else
    stopTimer;;
    do h <- setTimeout (auto_abort_delay_ms opt);
    modify (set_abortTimer (Some h)).

Definition voteRequired (lobby : Lobby) : JS.integral :=
  JS.ceil (JS.max
    (JS.mul (JS.of_nat (size (playersInGame lobby))) (vote_rate opt))
    (vote_min opt)).

Definition autoAbortRequired (lobby : Lobby) : JS.integral :=
  JS.ceil
    (JS.mul (JS.of_nat (size (playersInGame lobby))) (auto_abort_rate opt)).

Definition checkAutoAbort (lobby : Lobby) : M State unit :=
  do t <- gets abortTimer;
  match t with
  | None =>
      if JS.le_nat (autoAbortRequired lobby) (size (playersFinished lobby))
      then startTimer
      else mret tt
  | Some _ => mret tt
  end.

Definition checkVoteCount (showMessage : bool) : M State unit :=
  do v <- gets voting;
  (if negb (VoteCounter.count v =? 0) && showMessage
   then call (SendMessage
                ("bot : match abort progress: " ++ toString v))
   else mret tt);;
  do v <- gets voting;
  if VoteCounter.passed v then doAbort else mret tt.

Definition vote (player : Player) : M State unit :=
  do v <- gets voting;
  if VoteCounter.passed v then mret tt
  else
    let (accepted, v') := VoteCounter.Vote player v in
    modify (set_voting v');;
    if accepted then checkVoteCount true else mret tt.

Definition onPlayerLeft (lobby : Lobby) (player : Player)
  : M State unit :=
  if negb (isMatching lobby) then mret tt
  else
    modify (update_voting (VoteCounter.RemoveVoter player));;
    checkVoteCount false;;
    checkAutoAbort lobby;;
    if Z.of_nat (size (players lobby)) =? 0
    then modify (update_voting VoteCounter.Clear);; stopTimer
    else mret tt.

Definition onMatchStarted (lobby : Lobby) : M State unit :=
  modify (update_voting VoteCounter.RemoveAllVoters);;
  foldr (fun p rest => modify (update_voting (VoteCounter.AddVoter p));; rest)
        (mret tt) (elements (players lobby)).

Definition onPlayerFinished (lobby : Lobby) (player : Player) (score : Z)
    (isPassed : bool) (nFinished nInGame : Z) : M State unit :=
  checkAutoAbort lobby.

Definition onMatchFinished : M State unit := stopTimer.

Definition onCustomCommand (lobby : Lobby) (player : Player) (auth : Z)
    (command param : string) : M State unit :=
  if negb (isMatching lobby) then mret tt
  else if String.eqb command "!abort" then
    if bool_decide (Some player = host lobby) then doAbort
    else vote player
  else if 2 <=? auth then
    if String.eqb command "*abort" then doAbort else mret tt
  else mret tt.

(** *** Event delivery *)

(** The events [registerEvents] subscribes to, and [TimerDue h]: the
    runtime reaches the timer [h] in its queue.  It runs the
    callback only if [h] is still pending, and a timer runs once. *)
Inductive Event : Type :=
| PlayerLeft (player : Player)
| MatchStarted
| PlayerFinished (player : Player) (score : Z) (isPassed : bool)
                 (nFinished nInGame : Z)
| MatchFinished
| ReceivedCustomCommand (player : Player) (authority : Z)
                        (command param : string)
| TimerDue (h : Handle).

(** A pending timer leaves the table when the runtime runs it, before
    its callback; a timer that is not pending is skipped. *)
Definition onTimerDue (h : Handle) : M State unit :=
  do table <- gets pending;
  match table !! h with
  | Some _ => clearTimeout h;; abortTimerAction
  | None => mret tt
  end.

Definition handle (lobby : Lobby) (ev : Event) : M State unit :=
  match ev with
  | PlayerLeft p => onPlayerLeft lobby p
  | MatchStarted => onMatchStarted lobby
  | PlayerFinished p score passed nf ng =>
      onPlayerFinished lobby p score passed nf ng
  | MatchFinished => onMatchFinished
  | ReceivedCustomCommand p auth command param =>
      onCustomCommand lobby p auth command param
  | TimerDue h => onTimerDue h
  end.

Fixpoint run (evs : list (Lobby * Event)) : M State unit :=
  match evs with
  | [] => mret tt
  | (lobby, ev) :: rest => handle lobby ev;; run rest
  end.

(** *** Vocabulary of the properties *)

(** The state once the watchdog is disarmed: no handle, and the
    timer the handle named cleared. *)
Definition disarmed (s : State) : State :=
  {| abortTimer := None; voting := voting s;
     pending := match abortTimer s with
                | Some h => delete h (pending s)
                | None => pending s
                end;
     nextHandle := nextHandle s |}.

(** The state once the watchdog is armed (again): the old timer
    cleared, a fresh one pending for [auto_abort_delay_ms]. *)
Definition armed (s : State) : State :=
  {| abortTimer := Some (nextHandle s); voting := voting s;
     pending := <[nextHandle s := auto_abort_delay_ms opt]>
                  (pending (disarmed s));
     nextHandle := S (nextHandle s) |}.

(** Enough players have finished. *)
Definition autoAbortDue (lobby : Lobby) : bool :=
  JS.le_nat (autoAbortRequired lobby) (size (playersFinished lobby)).

(** A progress signal arms the watchdog. *)
Definition arms (lobby : Lobby) (s : State) : bool :=
  bool_decide (abortTimer s = None)
  && autoAbortDue lobby
  && negb (auto_abort_delay_ms opt =? 0).

Definition is_progress (ev : Event) : bool :=
  match ev with
  | PlayerFinished _ _ _ _ _ => true
  | _ => false
  end.

(** The progress message of [checkVoteCount]. *)
Definition progress (v : VoteCounter.t) : Effect :=
  SendMessage ("bot : match abort progress: " ++ toString v).

(** A command that aborts on authority alone: [!abort] from the
    host, or [*abort] from a player of authority 2 or more. *)
Definition privileged (lobby : Lobby) (player : Player) (auth : Z)
    (command : string) : bool :=
  (String.eqb command "!abort" && bool_decide (Some player = host lobby))
  || (String.eqb command "*abort" && (2 <=? auth)).

(** The handle held by the plugin was returned by [setTimeout], and
    the plugin only holds one when the delay is not zero. *)
Definition wf (s : State) : Prop :=
  forall h, abortTimer s = Some h ->
            (h < nextHandle s)%nat /\ auto_abort_delay_ms opt <> 0.

(** The timer [h] was set once and is pending no more. *)
Definition spent (h : Handle) (s : State) : Prop :=
  pending s !! h = None /\ (h < nextHandle s)%nat.

(** The only timer that can be pending is the one whose handle
    the plugin holds. *)
Definition single_slot (s : State) : Prop :=
  forall h d, pending s !! h = Some d -> abortTimer s = Some h.

End Plugin.

End MatchAborter.

(** ** Sample configurations and lobbies *)

Module Samples.
Import MatchAborter.

(** The players with ids [1..n]. *)
Definition first_players (n : nat) : gset nat := list_to_set (seq 1 n).

(** A running match of [n] players, the first [fin] of them
    finished, player 1 the host. *)
Definition lobby_of (n fin : nat) : Lobby :=
  {| isMatching := true; host := Some 1%nat;
     players := first_players n;
     playersInGame := first_players n;
     playersFinished := first_players fin |}.

(** The lobby after everyone has left during a match. *)
Definition empty_lobby : Lobby :=
  {| isMatching := true; host := None;
     players := ∅; playersInGame := ∅; playersFinished := ∅ |}.

(** The doubles [0.5], [1] and [2]: exact. *)
Definition one_half : JS.number := S754_finite false 4503599627370496 (-53).
Definition one : JS.number := S754_finite false 4503599627370496 (-52).
Definition two : JS.number := S754_finite false 4503599627370496 (-51).

(** The double written [0.8]: [0x1.999999999999ap-1], a little above
    8/10. *)
Definition eight_tenths : JS.number :=
  S754_finite false 7205759403792794 (-53).

(** The double written [0.6666666666666667]: [0x1.5555555555556p-1],
    a little above 2/3. *)
Definition two_thirds : JS.number :=
  S754_finite false 6004799503160662 (-53).

(** The double written [0.28]: [0x1.1eb851eb851ecp-2], a little above
    28/100. *)
Definition twenty_eight_hundredths : JS.number :=
  S754_finite false 5044031582654956 (-54).

Definition sample_option (delay : Z) : MatchAborterOption :=
  {| vote_rate := one_half; vote_min := two;
     auto_abort_rate := eight_tenths; auto_abort_delay_ms := delay |}.

(** Half of the players, at least one. *)
Definition lenient_option : MatchAborterOption :=
  {| vote_rate := one_half; vote_min := one;
     auto_abort_rate := eight_tenths; auto_abort_delay_ms := 30000 |}.

(** Both rates [0.6666666666666667], at least one vote. *)
Definition two_thirds_option : MatchAborterOption :=
  {| vote_rate := two_thirds; vote_min := one;
     auto_abort_rate := two_thirds; auto_abort_delay_ms := 30000 |}.

(** Half of the players in game must have finished. *)
Definition half_finished_option : MatchAborterOption :=
  {| vote_rate := one_half; vote_min := two;
     auto_abort_rate := one_half; auto_abort_delay_ms := 30000 |}.

Definition render (r : JS.integral) : string :=
  match r with
  | JS.NaN => "NaN"
  | JS.Infinity true => "-Infinity"
  | JS.Infinity false => "Infinity"
  | JS.Int z => NilZero.string_of_int (Z.to_int z)
  end.

Definition sample_toString (v : VoteCounter.t) : string :=
  NilZero.string_of_int (Z.to_int (VoteCounter.count v))
  ++ " / " ++ render (VoteCounter.required v).

Definition abort_vote (p : nat) : Event :=
  ReceivedCustomCommand p 0 "!abort" "".

Definition finished (p : nat) (nFinished nInGame : Z) : Event :=
  PlayerFinished p 0 true nFinished nInGame.

(** Eight players, two of whom have voted to abort. *)
Definition two_votes_of_eight : list (Lobby * Event) :=
  [(lobby_of 8 0, MatchStarted);
   (lobby_of 8 0, abort_vote 2);
   (lobby_of 8 0, abort_vote 3)].

(** Five players, four of whom have finished. *)
Definition four_of_five_finished : list (Lobby * Event) :=
  [(lobby_of 5 0, MatchStarted);
   (lobby_of 5 4, finished 4 4 5)].

(** Three players, one of whom has voted to abort. *)
Definition one_vote_of_three : list (Lobby * Event) :=
  [(lobby_of 3 0, MatchStarted);
   (lobby_of 3 0, abort_vote 2)].

(** Five players, three of whom have finished. *)
Definition three_of_five_finished : list (Lobby * Event) :=
  [(lobby_of 5 0, MatchStarted);
   (lobby_of 5 3, finished 3 3 5)].

(** Eight players, two votes, and seven players finished. *)
Definition votes_and_timer : list (Lobby * Event) :=
  two_votes_of_eight ++ [(lobby_of 8 7, finished 7 7 8)].

(** [*abort] sent by player 7 with the given authority. *)
Definition elevated_abort (auth : Z) : Event :=
  ReceivedCustomCommand 7 auth "*abort" "".

(** Players 1 and 2 play; player 3 joins the lobby during the match
    and is not in game.  Player 1 finishes, then players 1 and 2
    leave: the roster is empty, the lobby is not. *)
Definition lobby_with_joiner (inGame fin : list nat) (everyone : list nat)
  : Lobby :=
  {| isMatching := true; host := Some 3%nat;
     players := list_to_set everyone;
     playersInGame := list_to_set inGame;
     playersFinished := list_to_set fin |}.

Definition roster_leaves_joiner_stays : list (Lobby * Event) :=
  [(lobby_with_joiner [1; 2] [] [1; 2], MatchStarted);
   (lobby_with_joiner [1; 2] [1] [1; 2; 3], finished 1 1 2);
   (lobby_with_joiner [2] [] [2; 3], PlayerLeft 1)]%nat.

(** The lobby when player 2 has left as well. *)
Definition joiner_alone : Lobby := lobby_with_joiner [] [] [3%nat].

(** The state of a plugin built with [opt] after a history. *)
Definition state_after (opt : MatchAborterOption)
    (evs : list (Lobby * Event)) : State :=
  state_of (run opt sample_toString evs (init opt)).

(** [!abort] sent by the host, player 1. *)
Definition host_abort : Event := ReceivedCustomCommand 1 0 "!abort" "".

(** Player 3 of the three has left; players 1 and 2 remain and have
    both finished. *)
Definition lobby_without_3_finished : Lobby :=
  {| isMatching := true; host := Some 1%nat;
     players := first_players 2;
     playersInGame := first_players 2;
     playersFinished := first_players 2 |}.

(** Player 3 of the three has left; players 1 and 2 remain. *)
Definition lobby_without_3 : Lobby :=
  {| isMatching := true; host := Some 1%nat;
     players := first_players 2;
     playersInGame := first_players 2;
     playersFinished := ∅ |}.

End Samples.

(** ** Further vocabulary *)

Module MapRecasterMore.
Import MapRecaster.

(** An [!update] chat command. *)
Definition is_update (ev : Event) : bool :=
  match ev with
  | ReceivedChatCommand command _ _ => String.eqb command "!update"
  | ReceivedBanchoResponse _ => false
  end.

(** The recast messages for the [!update] commands of a history, each
    with the map of the lobby at the time of its command. *)
Definition update_recasts (evs : list (Lobby * Event)) : list Effect :=
  map (fun e => recast (fst e)) (filter (fun e => is_update (snd e) = true) evs).

(** A lobby on the given map, player 1 the host. *)
Definition lobby_on (map : N) : Lobby :=
  {| mapId := map; host := Some 1%nat |}.

(** A chat command that is not [!update]. *)
Definition other_command : Event := ReceivedChatCommand "!queue" "" 2.

End MapRecasterMore.

Module MatchAborterMore.
Import MatchAborter.

(** How many chat messages the lobby is asked to send. *)
Definition messages (out : list Effect) : nat :=
  length (filter (fun e => e <> AbortMatch) out).

Definition newline : string := String (Ascii.ascii_of_nat 10) EmptyString.

Section Plugin.

Context (opt : MatchAborterOption).
Context (toString : VoteCounter.t -> string).

(** The template literal of [getPluginStatus], line breaks and
    indentation included. *)
Definition getPluginStatus (s : State) : string :=
  "-- Match Aborter --" ++ newline
  ++ "      timer : "
  ++ (match abortTimer s with Some _ => "active" | None => "---" end)
  ++ newline
  ++ "      vote : " ++ toString (voting s) ++ newline
  ++ "    ".

(** The plugin holds a handle exactly while the timer it names is
    pending: that timer is then the only one, set for the configured
    delay, which is not 0; with no handle held nothing is pending. *)
Definition timer_inv (s : State) : Prop :=
  match abortTimer s with
  | Some h =>
      pending s = {[h := auto_abort_delay_ms opt]}
      /\ (h < nextHandle s)%nat
      /\ auto_abort_delay_ms opt <> 0
  | None => pending s = ∅
  end.

(** A command the plugin drops: no match is running; or the command
    is not [!abort] and is not an [*abort] of authority 2 or more; or
    it is [!abort] from a player who is not the host when the vote has
    passed already. *)
Definition dropped (lobby : Lobby) (player : Player) (auth : Z)
    (command : string) (s : State) : bool :=
  negb (isMatching lobby)
  || (negb (String.eqb command "!abort")
      && negb (String.eqb command "*abort" && (2 <=? auth)))
  || (String.eqb command "!abort"
      && negb (bool_decide (Some player = host lobby))
      && VoteCounter.passed (voting s)).

End Plugin.

End MatchAborterMore.

(** * Properties *)

(** ** The handler monad *)

Lemma bind_unfold {S A B} (m : M S A) (k : A -> M S B) (s : S) :
  bind m k s =
  (value_of (k (value_of (m s)) (state_of (m s))),
   state_of (k (value_of (m s)) (state_of (m s))),
   calls_of (m s) ++ calls_of (k (value_of (m s)) (state_of (m s)))).
Proof.
  unfold bind, value_of, state_of, calls_of.
  destruct (m s) as [[a s1] out1]; simpl.
  destruct (k a s1) as [[b s2] out2]; reflexivity.
Qed.

Lemma seq_unfold {S A B} (m : M S A) (k : M S B) (s : S) :
  (m;; k) s =
  (value_of (k (state_of (m s))), state_of (k (state_of (m s))),
   calls_of (m s) ++ calls_of (k (state_of (m s)))).
Proof. apply (bind_unfold m (fun _ => k)). Qed.

(** Unfolds the monad in the goal. *)
Ltac monad_simpl :=
  repeat (progress (unfold mbind, M_bind, mret, M_ret, bind,
                           gets, modify, call,
                           value_of, state_of, calls_of in *; simpl in *)).

(** ** MapRecaster *)

Module MapRecasterProofs.
Import MapRecaster.

Lemma recast_run_cons lobby ev rest st :
  run ((lobby, ev) :: rest) st =
  (tt, state_of (run rest (state_of (handle lobby ev st))),
   calls_of (handle lobby ev st)
     ++ calls_of (run rest (state_of (handle lobby ev st)))).
Proof.
  change (run ((lobby, ev) :: rest)) with (handle lobby ev;; run rest).
  rewrite seq_unfold. by destruct (value_of _).
Qed.

(** One delivery calls the lobby at most as often as the flag allows,
    and what it leaves of the flag pays for the calls to come. *)
Lemma handle_budget lobby ev st :
  (length (calls_of (handle lobby ev st))
     + Nat.b2n (canRecast (state_of (handle lobby ev st)))
   <= Nat.b2n (canRecast st)
      + Nat.b2n (is_selection_changed ev))%nat.
Proof.
  destruct st as [[]], ev as [c a p | []]; simpl;
    unfold onReceivedChatCommand; try destruct (String.eqb c _);
    monad_simpl; lia.
Qed.

Lemma run_budget evs : forall st,
  (length (calls_of (run evs st))
   <= Nat.b2n (canRecast st) + selection_changes evs)%nat.
Proof.
  induction evs as [| [lobby ev] rest IH]; intros st.
  - cbn. lia.
  - rewrite recast_run_cons. unfold calls_of at 1; simpl snd.
    rewrite length_app.
    pose proof (handle_budget lobby ev st) as Hb.
    pose proof (IH (state_of (handle lobby ev st))) as Hr.
    unfold selection_changes in *. rewrite filter_cons. simpl snd.
    destruct (is_selection_changed ev) eqn:Hsel; simpl in *; lia.
Qed.

(** C8. The recast is done at most once per map selection: a
    beatmap-changed response sets [canRecast]; [!update] while
    [canRecast] is set sends the recast message once and unsets the
    flag; [!update] while it is unset sends nothing and changes
    nothing; so a history sends at most one recast more than it has
    beatmap changes, and none more when the flag starts unset. *)
Theorem recast_once_per_selection :
  (forall lobby st,
      handle lobby (ReceivedBanchoResponse BeatmapChanged) st
      = (tt, {| canRecast := true |}, []))
  /\ (forall lobby param player,
        onReceivedChatCommand lobby "!update" param player
          {| canRecast := true |}
        = (tt, {| canRecast := false |}, [recast lobby]))
  /\ (forall lobby param player,
        onReceivedChatCommand lobby "!update" param player
          {| canRecast := false |}
        = (tt, {| canRecast := false |}, []))
  /\ (forall evs st,
        (length (calls_of (run evs st))
         <= Nat.b2n (canRecast st) + selection_changes evs)%nat).
Proof.
  split; [| split; [| split]]; try reflexivity.
  intros evs st. apply run_budget.
Qed.

(** C9. What [!update] (or any other command) does depends neither
    on who sent it nor on who the host is: two players sending the
    same command in the same state get the same state and the same
    lobby calls, and any player, host or not, gets the recast while
    [canRecast] is set. *)
Theorem recast_ignores_sender :
  (forall lobby command param p1 p2 st,
      onReceivedChatCommand lobby command param p1 st
      = onReceivedChatCommand lobby command param p2 st)
  /\ (forall map h1 h2 command param p1 p2 st,
        onReceivedChatCommand {| mapId := map; host := h1 |}
          command param p1 st
        = onReceivedChatCommand {| mapId := map; host := h2 |}
            command param p2 st)
  /\ (forall lobby param player,
        calls_of (onReceivedChatCommand lobby "!update" param player init)
        = [recast lobby]).
Proof. repeat split. Qed.

End MapRecasterProofs.

(** ** MatchAborter *)

Module MatchAborterProofs.
Import MatchAborter.

(** *** Ceilings *)

Lemma Qceiling_le_iff (x : Q) (n : Z) :
  Qceiling x <= n <-> (x <= inject_Z n)%Q.
Proof.
  split; intros H.
  - eapply Qle_trans; [apply Qle_ceiling |]. by rewrite <- Zle_Qle.
  - rewrite <- (Qceiling_Z n). by apply Qceiling_resp_le.
Qed.

Lemma Qceiling_max_0 (x : Q) :
  Qceiling (Qmax 0 x) = Z.max 0 (Qceiling x).
Proof.
  apply Z.le_antisymm.
  - apply Qceiling_le_iff, Q.max_lub.
    + change 0%Q with (inject_Z 0). rewrite <- Zle_Qle. lia.
    + eapply Qle_trans; [apply Qle_ceiling |]. rewrite <- Zle_Qle. lia.
  - apply Z.max_lub.
    + rewrite <- (Qceiling_Z 0). apply Qceiling_resp_le, Q.le_max_l.
    + apply Qceiling_resp_le, Q.le_max_r.
Qed.

(** *** Numbers *)

(** Of two real numbers [Math.max] returns a real number, the larger
    of the two values. *)
Lemma max_real (x y : JS.number) :
  JS.real x = true -> JS.real y = true ->
  JS.real (JS.max x y) = true
  /\ JS.value (JS.max x y) == Qmax (JS.value x) (JS.value y).
Proof.
  intros Hx Hy.
  assert (Hmax :
    JS.max x y =
    if Qle_bool (JS.value x) (JS.value y) then
      if Qle_bool (JS.value y) (JS.value x) then
        match x with S754_zero true => y | _ => x end
      else y
    else x).
  { destruct x as [[] | | | sx mx ex], y as [[] | | | sy my ey];
      try discriminate; reflexivity. }
  rewrite Hmax.
  destruct (Qle_bool (JS.value x) (JS.value y)) eqn:Hxy.
  - apply Qle_bool_iff in Hxy.
    destruct (Qle_bool (JS.value y) (JS.value x)) eqn:Hyx.
    + apply Qle_bool_iff in Hyx.
      assert (Heq : JS.value x == JS.value y) by by apply Qle_antisym.
      destruct x as [[] | | | sx mx ex]; try discriminate;
        (split; [done |]); rewrite Q.max_r by done;
        (reflexivity || exact Heq).
    + split; [done |]. by rewrite Q.max_r.
  - split; [done |]. rewrite Q.max_l; [reflexivity |].
    apply Qnot_lt_le. intros Hlt. apply Qlt_le_weak in Hlt.
    apply Qle_bool_iff in Hlt. congruence.
Qed.

(** [Math.ceil(p) <= n] holds exactly when [p] is at most [n]. *)
Lemma ceil_le_nat_iff (p : JS.number) (n : nat) :
  JS.le_nat (JS.ceil p) n = true <-> JS.at_most p n.
Proof.
  destruct p as [s | s | | s m e]; simpl JS.ceil; simpl JS.le_nat;
    unfold JS.at_most.
  - rewrite Z.leb_le, Qceiling_le_iff. reflexivity.
  - reflexivity.
  - split; [discriminate | tauto].
  - rewrite Z.leb_le, Qceiling_le_iff. reflexivity.
Qed.

(** The product of no players with a real rate is zero. *)
Lemma mul_zero_players (rate : JS.number) :
  JS.real rate = true ->
  JS.real (JS.mul (JS.of_nat 0) rate) = true
  /\ JS.value (JS.mul (JS.of_nat 0) rate) = 0%Q.
Proof. destruct rate; try discriminate; intros _; by split. Qed.

Section Plugin.

Context (opt : MatchAborterOption).
Context (toString : VoteCounter.t -> string).

(** *** The watchdog, step by step *)

Lemma stopTimer_eq st : stopTimer st = (tt, disarmed st, []).
Proof. unfold stopTimer, disarmed. by destruct st as [[h |] v tab n]. Qed.

Lemma doAbort_eq st : doAbort st = (tt, disarmed st, [AbortMatch]).
Proof.
  unfold doAbort. rewrite seq_unfold, stopTimer_eq. reflexivity.
Qed.

Lemma disarmed_idle st : abortTimer st = None -> disarmed st = st.
Proof. destruct st; simpl; intros ->; reflexivity. Qed.

Lemma startTimer_eq st :
  startTimer opt st =
  (tt, if auto_abort_delay_ms opt =? 0 then st else armed opt st, []).
Proof.
  unfold startTimer. destruct (auto_abort_delay_ms opt =? 0); [done |].
  rewrite seq_unfold, stopTimer_eq. reflexivity.
Qed.

Lemma checkAutoAbort_eq lobby st :
  checkAutoAbort opt lobby st =
  (tt, if arms opt lobby st then armed opt st else st, []).
Proof.
  unfold checkAutoAbort, arms, autoAbortDue.
  rewrite bind_unfold. unfold gets, value_of, state_of, calls_of; simpl.
  destruct (abortTimer st) as [h |] eqn:Ht; simpl.
  - by destruct st.
  - destruct (JS.le_nat (autoAbortRequired opt lobby) _); simpl.
    + rewrite startTimer_eq. simpl.
      by destruct (auto_abort_delay_ms opt =? 0); destruct st.
    + by destruct st.
Qed.

Lemma abortTimerAction_eq st :
  abortTimerAction st =
  (tt, disarmed st,
   match abortTimer st with Some _ => [AbortMatch] | None => [] end).
Proof.
  unfold abortTimerAction. rewrite bind_unfold.
  unfold gets, value_of, state_of, calls_of; simpl.
  destruct (abortTimer st) eqn:Ht.
  - rewrite doAbort_eq. reflexivity.
  - rewrite disarmed_idle by done. by destruct st.
Qed.

Lemma checkVoteCount_eq (showMessage : bool) st :
  checkVoteCount toString showMessage st =
  (tt,
   if VoteCounter.passed (voting st) then disarmed st else st,
   (if negb (VoteCounter.count (voting st) =? 0) && showMessage
    then [progress toString (voting st)] else [])
   ++ (if VoteCounter.passed (voting st) then [AbortMatch] else [])).
Proof.
  unfold checkVoteCount, progress, mbind, M_bind, bind, gets, call,
    mret, M_ret.
  destruct (negb (VoteCounter.count (voting st) =? 0) && showMessage);
    destruct (VoteCounter.passed (voting st)) eqn:Hp;
    cbv beta iota zeta; rewrite ?Hp, ?doAbort_eq; reflexivity.
Qed.

(** *** The vote threshold *)

(** C3 (as the code has it). [voteRequired] is the ceiling of the
    larger of the product [playersInGame.size * vote_rate] as the code
    computes it, rounded to the nearest double, and [vote_min]: when
    the product and the minimum are real numbers, it is the least
    integer that is at least both.  With nobody in game (and a real
    rate and minimum) it is the ceiling of [vote_min], clamped at
    0. *)
Theorem voteRequired_is_ceil_max :
  (forall lobby,
      JS.real (JS.mul (JS.of_nat (size (playersInGame lobby))) (vote_rate opt))
      = true ->
      JS.real (vote_min opt) = true ->
      exists z : Z,
        voteRequired opt lobby = JS.Int z
        /\ forall n : Z,
             z <= n <->
             (JS.value
                (JS.mul (JS.of_nat (size (playersInGame lobby)))
                   (vote_rate opt))
              <= inject_Z n)%Q
             /\ (JS.value (vote_min opt) <= inject_Z n)%Q)
  /\ (forall matching h everyone finished,
        JS.real (vote_rate opt) = true ->
        JS.real (vote_min opt) = true ->
        voteRequired opt
          {| isMatching := matching; host := h; players := everyone;
             playersInGame := ∅; playersFinished := finished |}
        = JS.Int (Z.max 0 (Qceiling (JS.value (vote_min opt))))).
Proof.
  assert (Hceil : forall p, JS.real p = true ->
            JS.ceil p = JS.Int (Qceiling (JS.value p))).
  { by intros [| | |]. }
  split.
  - intros lobby Hp Hmin. unfold voteRequired.
    destruct (max_real _ _ Hp Hmin) as [Hreal Hval].
    eexists. split; [by apply Hceil |].
    intros n. rewrite Qceiling_le_iff, Hval. apply Q.max_lub_iff.
  - intros matching h everyone finished Hrate Hmin.
    unfold voteRequired. cbn [playersInGame]. rewrite size_empty.
    destruct (mul_zero_players _ Hrate) as [Hp Hzero].
    destruct (max_real _ _ Hp Hmin) as [Hreal Hval].
    rewrite Hceil by done. f_equal.
    rewrite (Qceiling_comp _ _ Hval), Hzero. apply Qceiling_max_0.
Qed.

(** *** Progress signals *)

Lemma onPlayerFinished_eq lobby p score isPassed nf ng st :
  onPlayerFinished opt lobby p score isPassed nf ng st =
  (tt, if arms opt lobby st then armed opt st else st, []).
Proof. apply checkAutoAbort_eq. Qed.

Lemma run_cons lobby ev rest st :
  run opt toString ((lobby, ev) :: rest) st =
  (tt,
   state_of (run opt toString rest
               (state_of (handle opt toString lobby ev st))),
   calls_of (handle opt toString lobby ev st)
     ++ calls_of (run opt toString rest
                    (state_of (handle opt toString lobby ev st)))).
Proof.
  change (run opt toString ((lobby, ev) :: rest))
    with (handle opt toString lobby ev;; run opt toString rest).
  rewrite seq_unfold. by destruct (value_of _).
Qed.

(** C4 (as the code has it). With [auto_abort_delay_ms] 0 a
    progress signal does nothing, whether or not enough players
    have finished: the plugin state is unchanged, the lobby is not
    called, no timer is set. *)
Theorem zero_delay_disables_auto_abort lobby p score isPassed nf ng st :
  auto_abort_delay_ms opt = 0 ->
  onPlayerFinished opt lobby p score isPassed nf ng st = (tt, st, []).
Proof.
  intros Hz. rewrite onPlayerFinished_eq. unfold arms.
  rewrite Hz. simpl. by rewrite andb_false_r.
Qed.

(** The comparison [autoAbortRequired <= playersFinished.size] holds
    exactly when the product [playersInGame.size * auto_abort_rate],
    rounded to the nearest double, is at most the number finished. *)
Lemma autoAbortDue_iff lobby :
  autoAbortDue opt lobby = true <->
  JS.at_most
    (JS.mul (JS.of_nat (size (playersInGame lobby))) (auto_abort_rate opt))
    (size (playersFinished lobby)).
Proof. apply ceil_le_nat_iff. Qed.

(** C5 (as the code has it). A progress signal never calls the
    lobby.  When no timer is held, the product
    [playersInGame.size * auto_abort_rate] as the code computes it,
    rounded to the nearest double, is at most [playersFinished.size]
    (so that its ceiling is), and [auto_abort_delay_ms] is not 0, it
    sets a fresh timer for [auto_abort_delay_ms] and holds its handle;
    in every other case it leaves the state as it is. *)
Theorem progress_arms_watchdog lobby p score isPassed nf ng st :
  let r := onPlayerFinished opt lobby p score isPassed nf ng st in
  calls_of r = []
  /\ (abortTimer st = None ->
      JS.at_most
        (JS.mul (JS.of_nat (size (playersInGame lobby))) (auto_abort_rate opt))
        (size (playersFinished lobby)) ->
      auto_abort_delay_ms opt <> 0 ->
      abortTimer (state_of r) = Some (nextHandle st)
      /\ pending (state_of r)
         = <[nextHandle st := auto_abort_delay_ms opt]> (pending st)
      /\ nextHandle (state_of r) = S (nextHandle st)
      /\ voting (state_of r) = voting st)
  /\ (abortTimer st <> None
      \/ ~ JS.at_most
            (JS.mul (JS.of_nat (size (playersInGame lobby)))
               (auto_abort_rate opt))
            (size (playersFinished lobby))
      \/ auto_abort_delay_ms opt = 0 ->
      state_of r = st).
Proof.
  cbv zeta. rewrite onPlayerFinished_eq. unfold state_of, calls_of; simpl.
  split; [done | split].
  - intros Hidle Hdue Hdelay. unfold arms.
    rewrite bool_decide_eq_true_2 by done.
    apply autoAbortDue_iff in Hdue. rewrite Hdue.
    apply Z.eqb_neq in Hdelay. rewrite Hdelay. simpl.
    by rewrite Hidle.
  - intros Hno. unfold arms.
    destruct Hno as [Hheld | [Hfew | Hzero]].
    + by rewrite bool_decide_eq_false_2.
    + destruct (autoAbortDue opt lobby) eqn:Hdue.
      * by apply autoAbortDue_iff in Hdue.
      * by rewrite andb_false_r.
    + rewrite Hzero. by rewrite andb_false_r.
Qed.

Lemma progress_run_held evs : forall st,
  abortTimer st <> None ->
  forallb (fun e => is_progress (snd e)) evs = true ->
  run opt toString evs st = (tt, st, []).
Proof.
  induction evs as [| [lobby ev] rest IH]; intros st Hheld Hall.
  - reflexivity.
  - simpl in Hall. apply andb_true_iff in Hall as [Hev Hrest].
    destruct ev; try discriminate. rewrite run_cons. simpl handle.
    rewrite onPlayerFinished_eq. unfold arms.
    rewrite bool_decide_eq_false_2 by done. unfold state_of, calls_of.
    simpl. by rewrite IH.
Qed.

(** C10. While the plugin holds a timer handle, [checkAutoAbort]
    changes nothing: the handle, the pending timer and its delay
    stay as they are and the lobby is not called; so after any
    number of progress signals the state is the one before them. *)
Theorem held_timer_not_rearmed lobby st evs :
  abortTimer st <> None ->
  forallb (fun e => is_progress (snd e)) evs = true ->
  checkAutoAbort opt lobby st = (tt, st, [])
  /\ run opt toString evs st = (tt, st, []).
Proof.
  intros Hheld Hall. split.
  - rewrite checkAutoAbort_eq. unfold arms.
    by rewrite bool_decide_eq_false_2.
  - by apply progress_run_held.
Qed.

(** *** Commands and the abort *)

Lemma disarmed_facts st :
  abortTimer (disarmed st) = None
  /\ voting (disarmed st) = voting st
  /\ nextHandle (disarmed st) = nextHandle st
  /\ pending (disarmed st) ⊆ pending st
  /\ (forall h, abortTimer st = Some h -> pending (disarmed st) !! h = None).
Proof.
  unfold disarmed; simpl. repeat split.
  - destruct (abortTimer st); [apply delete_subseteq | done].
  - intros h ->. apply lookup_delete_eq.
Qed.

Lemma privileged_command_eq lobby p auth command param st :
  isMatching lobby = true ->
  privileged lobby p auth command = true ->
  onCustomCommand toString lobby p auth command param st = doAbort st.
Proof.
  intros Hm Hp. unfold onCustomCommand, privileged in *. rewrite Hm. simpl.
  destruct (String.eqb command "!abort") eqn:Hc; simpl in Hp.
  - apply String.eqb_eq in Hc as ->. simpl in Hp.
    rewrite orb_false_r in Hp. by rewrite Hp.
  - apply andb_true_iff in Hp as [-> ->]. reflexivity.
Qed.

Lemma vote_accepted p st v' :
  VoteCounter.passed (voting st) = false ->
  VoteCounter.Vote p (voting st) = (true, v') ->
  vote toString p st =
  (tt,
   if VoteCounter.passed v' then disarmed (set_voting v' st)
   else set_voting v' st,
   (if negb (VoteCounter.count v' =? 0) then [progress toString v'] else [])
   ++ (if VoteCounter.passed v' then [AbortMatch] else [])).
Proof.
  intros Hnp Hv. unfold vote. rewrite bind_unfold.
  unfold gets, value_of, state_of, calls_of; simpl.
  rewrite Hnp, Hv, seq_unfold, checkVoteCount_eq.
  unfold modify, value_of, state_of, calls_of; simpl.
  by rewrite andb_true_r.
Qed.

Lemma vote_command_eq lobby p auth param st :
  isMatching lobby = true ->
  Some p <> host lobby ->
  onCustomCommand toString lobby p auth "!abort" param st
  = vote toString p st.
Proof.
  intros Hm Hh. unfold onCustomCommand. rewrite Hm. simpl.
  by rewrite bool_decide_eq_false_2.
Qed.

Lemma onTimerDue_held h d st :
  abortTimer st = Some h ->
  pending st !! h = Some d ->
  onTimerDue h st = (tt, disarmed st, [AbortMatch]).
Proof.
  intros Ht Hp. unfold onTimerDue. rewrite bind_unfold.
  unfold gets, value_of, state_of, calls_of; simpl. rewrite Hp.
  rewrite seq_unfold, abortTimerAction_eq.
  unfold clearTimeout, modify, disarmed, value_of, state_of, calls_of.
  simpl. rewrite Ht. by rewrite delete_delete_eq.
Qed.

Lemma onTimerDue_gone h st :
  pending st !! h = None -> onTimerDue h st = (tt, st, []).
Proof.
  intros Hp. unfold onTimerDue. rewrite bind_unfold.
  unfold gets, value_of, state_of, calls_of; simpl. by rewrite Hp.
Qed.

(** C1 (as the code has it). [doAbort] clears the timer the
    plugin holds, forgets its handle and calls [AbortMatch] once;
    it leaves the votes as they are.  Each way of triggering it
    does exactly that: a privileged command, the timer running
    while its handle is held, and an accepted vote that makes the
    count pass (which first records the vote and reports the
    progress). *)
Theorem abort_disarms_and_calls_once st :
  (doAbort st = (tt, disarmed st, [AbortMatch])
   /\ abortTimer (disarmed st) = None
   /\ voting (disarmed st) = voting st
   /\ (forall h, abortTimer st = Some h ->
                 pending (disarmed st) !! h = None))
  /\ (forall lobby p auth command param,
        isMatching lobby = true ->
        privileged lobby p auth command = true ->
        onCustomCommand toString lobby p auth command param st
        = (tt, disarmed st, [AbortMatch]))
  /\ (forall lobby p auth param v',
        isMatching lobby = true ->
        Some p <> host lobby ->
        VoteCounter.passed (voting st) = false ->
        VoteCounter.Vote p (voting st) = (true, v') ->
        VoteCounter.passed v' = true ->
        onCustomCommand toString lobby p auth "!abort" param st
        = (tt, disarmed (set_voting v' st),
           [progress toString v'; AbortMatch]))
  /\ (forall lobby h d,
        abortTimer st = Some h ->
        pending st !! h = Some d ->
        handle opt toString lobby (TimerDue h) st
        = (tt, disarmed st, [AbortMatch])).
Proof.
  split; [| split; [| split]].
  - pose proof (disarmed_facts st) as (? & ? & ? & ? & ?).
    by rewrite doAbort_eq.
  - intros. rewrite privileged_command_eq by done. apply doAbort_eq.
  - intros lobby p auth param v' Hm Hh Hnp Hv Hp.
    rewrite vote_command_eq, (vote_accepted _ _ v') by done.
    rewrite Hp. unfold VoteCounter.passed in Hp.
    apply andb_true_iff in Hp as [Hpos _]. apply Z.ltb_lt in Hpos.
    assert ((VoteCounter.count v' =? 0) = false) as -> by lia.
    reflexivity.
  - intros lobby h d Ht Hp. simpl. by apply (onTimerDue_held h d).
Qed.

(** *** Match boundaries *)

Lemma add_voters_eq (l : list nat) : forall st,
  foldr (fun p rest =>
           modify (update_voting (VoteCounter.AddVoter p));; rest)
        (mret tt) l st
  = (tt,
     set_voting
       (VoteCounter.with_sets (voting st)
          (VoteCounter.roster (voting st) ∪ list_to_set l)
          (VoteCounter.votes (voting st))) st,
     []).
Proof.
  induction l as [| p l IH]; intros st.
  - simpl. unfold mret, M_ret, set_voting, VoteCounter.with_sets.
    rewrite (right_id_L ∅ (∪)). by destruct st as [t [] tab n].
  - simpl foldr. rewrite seq_unfold, IH.
    unfold modify, update_voting, set_voting, VoteCounter.AddVoter,
      VoteCounter.with_sets, value_of, state_of, calls_of; simpl.
    by rewrite (assoc_L (∪)).
Qed.

Lemma onMatchStarted_eq lobby st :
  onMatchStarted lobby st
  = (tt,
     set_voting
       (VoteCounter.with_sets (voting st) (players lobby) ∅) st,
     []).
Proof.
  unfold onMatchStarted. rewrite seq_unfold, add_voters_eq.
  unfold modify, update_voting, set_voting, VoteCounter.RemoveAllVoters,
    VoteCounter.with_sets, value_of, state_of, calls_of; simpl.
  by rewrite (left_id_L ∅ (∪)), list_to_set_elements_L.
Qed.

(** C7 (as the code has it). When the match finishes the plugin
    clears the timer it holds and forgets its handle; it calls
    nothing on the lobby and leaves the votes as they are.  The
    votes are emptied, and the roster replaced by the players of
    the lobby, when the next match starts. *)
Theorem match_finished_disarms st :
  (onMatchFinished st = (tt, disarmed st, [])
   /\ abortTimer (disarmed st) = None
   /\ voting (disarmed st) = voting st
   /\ (forall h, abortTimer st = Some h ->
                 pending (disarmed st) !! h = None))
  /\ (forall lobby,
        let r := onMatchStarted lobby st in
        VoteCounter.votes (voting (state_of r)) = ∅
        /\ VoteCounter.roster (voting (state_of r)) = players lobby
        /\ abortTimer (state_of r) = abortTimer st
        /\ pending (state_of r) = pending st
        /\ calls_of r = []).
Proof.
  split.
  - pose proof (disarmed_facts st) as (? & ? & ? & ? & ?).
    unfold onMatchFinished. by rewrite stopTimer_eq.
  - intros lobby. cbv zeta. by rewrite onMatchStarted_eq.
Qed.

(** *** A player leaves *)

Lemma onPlayerLeft_eq lobby p st :
  isMatching lobby = true ->
  let st1 := update_voting (VoteCounter.RemoveVoter p) st in
  let st2 := if VoteCounter.passed (voting st1) then disarmed st1 else st1 in
  let st3 := if arms opt lobby st2 then armed opt st2 else st2 in
  let st4 := if Z.of_nat (size (players lobby)) =? 0
             then disarmed (update_voting VoteCounter.Clear st3)
             else st3 in
  onPlayerLeft opt toString lobby p st =
  (tt, st4,
   if VoteCounter.passed (voting st1) then [AbortMatch] else []).
Proof.
  intros Hm. cbv zeta. unfold onPlayerLeft. rewrite Hm. cbn [negb].
  rewrite !seq_unfold, checkVoteCount_eq, checkAutoAbort_eq.
  unfold modify, value_of, state_of, calls_of; simpl.
  rewrite andb_false_r. simpl.
  destruct (Z.of_nat (size (players lobby)) =? 0).
  - rewrite seq_unfold, stopTimer_eq.
    unfold modify, value_of, state_of, calls_of; simpl.
    by rewrite !app_nil_r.
  - unfold mret, M_ret. simpl. by rewrite !app_nil_r.
Qed.

Lemma onPlayerLeft_idle lobby p st :
  isMatching lobby = false ->
  onPlayerLeft opt toString lobby p st = (tt, st, []).
Proof. intros Hm. unfold onPlayerLeft. by rewrite Hm. Qed.

Lemma armed_facts st :
  abortTimer (armed opt st) = Some (nextHandle st)
  /\ voting (armed opt st) = voting st
  /\ pending (armed opt st) !! nextHandle st
     = Some (auto_abort_delay_ms opt)
  /\ nextHandle (armed opt st) = S (nextHandle st).
Proof. unfold armed; simpl. repeat split. apply lookup_insert_eq. Qed.

(** C6 (as the code has it). When a player leaves during a match:
    the player, and nobody else, is taken off the roster and the
    votes; the vote count is checked again against the smaller roster
    and the lobby is asked to abort, once, exactly when it now passes
    (which also disarms the watchdog); then [checkAutoAbort] runs:
    unless the lobby is now empty, a fresh timer is set exactly when
    no handle is held after the vote check, the product
    [playersInGame.size * auto_abort_rate] as the code computes it is
    at most [playersFinished.size] and the delay is not 0, and in
    every other case the watchdog stays as the vote check left it; and
    when the lobby has no player left ([lobby.players], whoever is on
    the roster), the votes are emptied, no handle is held, no new
    timer is pending and the one held before is cleared. *)
Theorem player_left_reevaluates lobby p st :
  isMatching lobby = true ->
  let v1 := VoteCounter.RemoveVoter p (voting st) in
  let w := if VoteCounter.passed v1 then disarmed st else st in
  let r := onPlayerLeft opt toString lobby p st in
  (VoteCounter.votes v1 = VoteCounter.votes (voting st) ∖ {[p]}
   /\ VoteCounter.roster v1 = VoteCounter.roster (voting st) ∖ {[p]})
  /\ calls_of r = (if VoteCounter.passed v1 then [AbortMatch] else [])
  /\ (size (players lobby) <> 0%nat ->
      voting (state_of r) = v1
      /\ (abortTimer w = None ->
          JS.at_most
            (JS.mul (JS.of_nat (size (playersInGame lobby)))
               (auto_abort_rate opt))
            (size (playersFinished lobby)) ->
          auto_abort_delay_ms opt <> 0 ->
          abortTimer (state_of r) = Some (nextHandle st)
          /\ pending (state_of r)
             = <[nextHandle st := auto_abort_delay_ms opt]> (pending w)
          /\ nextHandle (state_of r) = S (nextHandle st))
      /\ (abortTimer w <> None
          \/ ~ JS.at_most
                (JS.mul (JS.of_nat (size (playersInGame lobby)))
                   (auto_abort_rate opt))
                (size (playersFinished lobby))
          \/ auto_abort_delay_ms opt = 0 ->
          abortTimer (state_of r) = abortTimer w
          /\ pending (state_of r) = pending w
          /\ nextHandle (state_of r) = nextHandle st))
  /\ (size (players lobby) = 0%nat ->
      voting (state_of r) = VoteCounter.Clear v1
      /\ VoteCounter.votes (voting (state_of r)) = ∅
      /\ abortTimer (state_of r) = None
      /\ pending (state_of r) ⊆ pending st
      /\ (forall h, abortTimer st = Some h ->
                    pending (state_of r) !! h = None)).
Proof.
  intros Hm. cbv zeta. rewrite onPlayerLeft_eq by done.
  unfold state_of, calls_of; cbn [fst snd].
  set (st1 := update_voting (VoteCounter.RemoveVoter p) st).
  change (voting st1) with (VoteCounter.RemoveVoter p (voting st)).
  set (v1 := VoteCounter.RemoveVoter p (voting st)).
  set (st2 := if VoteCounter.passed v1 then disarmed st1 else st1).
  set (w := if VoteCounter.passed v1 then disarmed st else st).
  assert (Ht2 : abortTimer st2 = abortTimer w).
  { unfold st2, w. by destruct (VoteCounter.passed v1). }
  assert (Hp2 : pending st2 = pending w).
  { unfold st2, w. by destruct (VoteCounter.passed v1). }
  assert (Hn2 : nextHandle st2 = nextHandle st).
  { unfold st2. by destruct (VoteCounter.passed v1). }
  assert (Hv2 : voting st2 = v1).
  { unfold st2. by destruct (VoteCounter.passed v1). }
  assert (Hpw : pending w ⊆ pending st).
  { unfold w. destruct (VoteCounter.passed v1); [apply disarmed_facts | done]. }
  assert (Hhw : forall h, abortTimer st = Some h ->
                  pending w !! h = None \/ abortTimer w = Some h).
  { intros h Hh. unfold w. destruct (VoteCounter.passed v1).
    - left. by apply disarmed_facts.
    - by right. }
  set (st3 := if arms opt lobby st2 then armed opt st2 else st2).
  assert (Hv3 : voting st3 = v1).
  { unfold st3. by destruct (arms opt lobby st2). }
  split; [done | split; [done | split]].
  - intros Hsize.
    assert (Hz : (Z.of_nat (size (players lobby)) =? 0) = false) by lia.
    rewrite Hz. split; [done | split].
    + intros Hidle Hdue Hdelay.
      assert (Harm : arms opt lobby st2 = true).
      { unfold arms. rewrite Ht2, bool_decide_eq_true_2 by done.
        apply autoAbortDue_iff in Hdue. rewrite Hdue.
        apply Z.eqb_neq in Hdelay. by rewrite Hdelay. }
      unfold st3. rewrite Harm. unfold armed; cbn [abortTimer pending nextHandle].
      rewrite Hn2. rewrite (disarmed_idle st2) by by rewrite Ht2.
      by rewrite Hp2.
    + intros Hno.
      assert (Harm : arms opt lobby st2 = false).
      { unfold arms. destruct Hno as [Hheld | [Hfew | Hzero]].
        - rewrite Ht2. by rewrite bool_decide_eq_false_2.
        - destruct (autoAbortDue opt lobby) eqn:Hdue.
          + by apply autoAbortDue_iff in Hdue.
          + by rewrite andb_false_r.
        - rewrite Hzero. by rewrite andb_false_r. }
      unfold st3. by rewrite Harm.
  - intros Hsize.
    assert (Hz : (Z.of_nat (size (players lobby)) =? 0) = true) by lia.
    rewrite Hz.
    split; [by cbn [voting disarmed update_voting set_voting]; rewrite Hv3 |].
    split; [done | split; [done |]].
    assert (Hsub : pending (disarmed (update_voting VoteCounter.Clear st3))
                   ⊆ pending st2).
    { unfold st3. destruct (arms opt lobby st2).
      - unfold disarmed at 1. simpl. rewrite delete_insert_eq.
        etrans; [apply delete_subseteq | apply disarmed_facts].
      - apply (disarmed_facts (update_voting VoteCounter.Clear st2)). }
    split; [by rewrite Hp2 in Hsub; etrans |].
    intros h Hh. destruct (Hhw h Hh) as [Hgone | Hheld].
    + eapply lookup_weaken_None; [exact Hgone |]. by rewrite <- Hp2.
    + assert (Harm : arms opt lobby st2 = false).
      { unfold arms. by rewrite Ht2, Hheld, bool_decide_eq_false_2. }
      unfold st3. rewrite Harm. apply disarmed_facts.
      cbn [abortTimer update_voting set_voting]. by rewrite Ht2.
Qed.

(** *** Invariants of the event loop *)

Lemma vote_eq p st :
  vote toString p st =
  if VoteCounter.passed (voting st) then (tt, st, [])
  else
    let v' := snd (VoteCounter.Vote p (voting st)) in
    if fst (VoteCounter.Vote p (voting st))
    then checkVoteCount toString true (set_voting v' st)
    else (tt, set_voting v' st, []).
Proof.
  unfold vote. rewrite bind_unfold.
  unfold gets, value_of, state_of, calls_of; simpl.
  destruct (VoteCounter.passed (voting st)); [by destruct st |].
  destruct (VoteCounter.Vote p (voting st)) as [[] v']; cbn [fst snd];
    unfold mbind, M_bind, bind, modify; simpl.
  - by destruct (checkVoteCount toString true (set_voting v' st))
      as [[[] s] out].
  - reflexivity.
Qed.

(** A property of the state that the four ways of changing it keep
    is kept by every delivery. *)
Lemma handle_preserves (P : State -> Prop) :
  (forall s, P s -> P (disarmed s)) ->
  (forall s, auto_abort_delay_ms opt <> 0 -> P s -> P (armed opt s)) ->
  (forall s v, P s -> P (set_voting v s)) ->
  (forall s h, P s -> P (state_of (clearTimeout h s))) ->
  forall lobby ev s, P s -> P (state_of (handle opt toString lobby ev s)).
Proof.
  intros Hdis Harmed Hvote Hclear lobby ev s Hs.
  assert (Hauto : forall lobby s, P s ->
            P (if arms opt lobby s then armed opt s else s)).
  { intros l s' Hs'. destruct (arms opt l s') eqn:Ha; [| done].
    apply Harmed; [| done]. unfold arms in Ha.
    apply andb_true_iff in Ha as [_ Ha]. apply negb_true_iff in Ha. lia. }
  assert (Hpass : forall s, P s ->
            P (if VoteCounter.passed (voting s) then disarmed s else s)).
  { intros s' Hs'. destruct (VoteCounter.passed _); auto. }
  destruct ev as [p | | p score ip nf ng | | p auth command param | h];
    simpl handle.
  - destruct (isMatching lobby) eqn:Hm.
    + rewrite onPlayerLeft_eq by done. unfold state_of; cbn [fst snd].
      destruct (Z.of_nat (size (players lobby)) =? 0).
      * apply Hdis, Hvote, Hauto, Hpass, Hvote, Hs.
      * apply Hauto, Hpass, Hvote, Hs.
    + by rewrite onPlayerLeft_idle.
  - rewrite onMatchStarted_eq. apply Hvote, Hs.
  - rewrite onPlayerFinished_eq. apply Hauto, Hs.
  - unfold onMatchFinished. rewrite stopTimer_eq. apply Hdis, Hs.
  - unfold onCustomCommand.
    destruct (negb (isMatching lobby)); [done |].
    destruct (String.eqb command "!abort").
    + destruct (bool_decide _).
      * rewrite doAbort_eq. apply Hdis, Hs.
      * rewrite vote_eq. destruct (VoteCounter.passed (voting s)); [done |].
        cbv zeta. destruct (fst (VoteCounter.Vote p (voting s))).
        -- rewrite checkVoteCount_eq. apply Hpass, Hvote, Hs.
        -- apply Hvote, Hs.
    + destruct (2 <=? auth); [| done].
      destruct (String.eqb command "*abort"); [| done].
      rewrite doAbort_eq. apply Hdis, Hs.
  - unfold onTimerDue. rewrite bind_unfold.
    unfold gets, value_of, state_of, calls_of; simpl.
    destruct (pending s !! h); [| done].
    rewrite seq_unfold, abortTimerAction_eq.
    unfold value_of, state_of, calls_of; simpl. apply Hdis.
    apply (Hclear s h Hs).
Qed.

Lemma run_preserves (P : State -> Prop) :
  (forall lobby ev s, P s -> P (state_of (handle opt toString lobby ev s))) ->
  forall evs s, P s -> P (state_of (run opt toString evs s)).
Proof.
  intros Hstep evs. induction evs as [| [lobby ev] rest IH]; intros s Hs.
  - done.
  - rewrite run_cons. apply IH, Hstep, Hs.
Qed.

Lemma spent_preserved h lobby ev s :
  spent h s -> spent h (state_of (handle opt toString lobby ev s)).
Proof.
  apply handle_preserves; unfold spent.
  - intros s' [Hgone Hlt]. split; [| done].
    eapply lookup_weaken_None; [done | apply disarmed_facts].
  - intros s' _ [Hgone Hlt]. unfold armed; simpl. split; [| lia].
    rewrite lookup_insert_ne by lia.
    eapply lookup_weaken_None; [done | apply disarmed_facts].
  - intros s' v Hs'. exact Hs'.
  - intros s' h' [Hgone Hlt]. unfold state_of; simpl. split; [| done].
    eapply lookup_weaken_None; [done | apply delete_subseteq].
Qed.

Lemma wf_preserved lobby ev s :
  wf opt s -> wf opt (state_of (handle opt toString lobby ev s)).
Proof.
  apply handle_preserves; unfold wf.
  - intros s' _ h. simpl. discriminate.
  - intros s' Hd _ h. simpl. intros [= <-]. split; [lia | done].
  - intros s' v Hs'. exact Hs'.
  - intros s' h' Hs'. exact Hs'.
Qed.

Lemma single_slot_preserved lobby ev s :
  single_slot s ->
  single_slot (state_of (handle opt toString lobby ev s)).
Proof.
  assert (Hempty : forall s' h d,
            single_slot s' -> pending (disarmed s') !! h = Some d -> False).
  { intros s' h d Hs'. unfold single_slot in Hs'. unfold disarmed; simpl.
    destruct (abortTimer s') as [h0 |] eqn:Ht.
    - intros [Hne Hin]%lookup_delete_Some.
      apply Hs' in Hin. congruence.
    - intros Hin. apply Hs' in Hin. congruence. }
  apply handle_preserves; unfold single_slot.
  - intros s' Hs' h d Hin. by destruct (Hempty s' h d).
  - intros s' _ Hs' h d. unfold armed; simpl.
    intros [[<- _] | [_ Hin]]%lookup_insert_Some; [done |].
    by destruct (Hempty s' h d).
  - intros s' v Hs'. exact Hs'.
  - intros s' h' Hs' h d. unfold state_of; simpl.
    intros [_ Hin]%lookup_delete_Some. by apply (Hs' h d).
Qed.

(** Every state the plugin reaches from its construction. *)
Lemma reachable_invariants hist :
  let st := state_of (run opt toString hist (init opt)) in
  wf opt st /\ single_slot st.
Proof.
  split.
  - apply run_preserves; [apply wf_preserved |]. intros h; discriminate.
  - apply run_preserves; [apply single_slot_preserved |].
    intros h d. simpl. by rewrite lookup_empty.
Qed.

Lemma spent_never_runs h st evs lobby :
  spent h st ->
  let st' := state_of (run opt toString evs st) in
  handle opt toString lobby (TimerDue h) st' = (tt, st', []).
Proof.
  intros Hs. cbv zeta. simpl handle. apply onTimerDue_gone.
  apply (run_preserves (spent h)); [| done].
  intros. by apply spent_preserved.
Qed.

(** The check in the timer callback: once the handle is
    forgotten, the callback itself does nothing. *)
Lemma callback_after_disarm st :
  abortTimerAction (disarmed st) = (tt, disarmed st, []).
Proof.
  rewrite abortTimerAction_eq. simpl.
  by rewrite (disarmed_idle (disarmed st)).
Qed.

(** C2. Take any state the plugin reaches and the timer [h] it
    holds there.  After [stopTimer], whatever is delivered next,
    the runtime never runs the callback for [h]: a [TimerDue h]
    changes nothing and calls nothing (and the callback's own check
    of the handle would make it do nothing right after the stop).
    After a second [startTimer] the plugin holds a fresh handle,
    the only pending timer is that one, with the configured delay;
    [h] never runs; and when the fresh timer runs it aborts. *)
Theorem watchdog_no_stale_fire hist h :
  abortTimer (state_of (run opt toString hist (init opt))) = Some h ->
  let st := state_of (run opt toString hist (init opt)) in
  let st1 := state_of (stopTimer st) in
  let st2 := state_of (startTimer opt st) in
  ((forall evs lobby,
       let st' := state_of (run opt toString evs st1) in
       handle opt toString lobby (TimerDue h) st' = (tt, st', []))
   /\ abortTimerAction st1 = (tt, st1, []))
  /\ (abortTimer st2 = Some (nextHandle st)
      /\ (forall h' d,
            pending st2 !! h' = Some d <->
            h' = nextHandle st /\ d = auto_abort_delay_ms opt)
      /\ (forall evs lobby,
            let st' := state_of (run opt toString evs st2) in
            handle opt toString lobby (TimerDue h) st' = (tt, st', []))
      /\ (forall lobby,
            handle opt toString lobby (TimerDue (nextHandle st)) st2
            = (tt, disarmed st2, [AbortMatch]))).
Proof.
  intros Hheld. cbv zeta.
  destruct (reachable_invariants hist) as [Hwf Hsingle].
  set (st := state_of (run opt toString hist (init opt))) in *.
  destruct (Hwf h Hheld) as [Hlt Hdelay].
  assert (Hempty : pending (disarmed st) = ∅).
  { apply map_eq. intros h'. rewrite lookup_empty.
    unfold disarmed; simpl. rewrite Hheld.
    apply lookup_delete_None.
    destruct (decide (h = h')) as [| Hne]; [by left | right].
    destruct (pending st !! h') as [d |] eqn:Hin; [| done].
    apply Hsingle in Hin. congruence. }
  rewrite stopTimer_eq, startTimer_eq.
  apply Z.eqb_neq in Hdelay as Hdelay'. rewrite Hdelay'.
  change (state_of (tt, disarmed st, @nil Effect)) with (disarmed st).
change (state_of (tt, armed opt st, @nil Effect)) with (armed opt st).
  assert (Hspent1 : spent h (disarmed st)).
  { split; [by rewrite Hempty | done]. }
  assert (Hspent2 : spent h (armed opt st)).
  { split; unfold armed; cbn [pending nextHandle]; [| lia].
    rewrite lookup_insert_ne by lia. by rewrite Hempty. }
  split; [split | split; [| split; [| split]]].
  - intros evs lobby. by apply spent_never_runs.
  - apply callback_after_disarm.
  - reflexivity.
  - intros h' d. unfold armed; cbn [pending].
    rewrite Hempty, lookup_insert_Some, lookup_empty. naive_solver.
  - intros evs lobby. by apply spent_never_runs.
  - intros lobby. simpl handle.
    apply (onTimerDue_held _ (auto_abort_delay_ms opt)); [done |].
    apply armed_facts.
Qed.

End Plugin.

(** *** The scenarios of the specification, run *)

Import Samples.

(** Eight players, rate 1/2, minimum 2: four votes are required. *)
Example threshold_of_eight :
  voteRequired (sample_option 30000) (lobby_of 8 0) = JS.Int 4
  /\ VoteCounter.required
       (voting (state_after (sample_option 30000) two_votes_of_eight))
     = JS.Int 4.
Proof. split; vm_compute; reflexivity. Qed.

(** Products as the code computes them: [3 * 0.6666666666666667] is
    rounded down to 2 and [5 * 0.8] to 4, both below the exact
    products; [25 * 0.28] is 7.000000000000001, whose ceiling is 8. *)
Example rounded_products :
  JS.mul (JS.of_nat 3) two_thirds = two
  /\ (2 < inject_Z 3 * JS.value two_thirds)%Q
  /\ JS.ceil (JS.mul (JS.of_nat 5) eight_tenths) = JS.Int 4
  /\ (4 < inject_Z 5 * JS.value eight_tenths)%Q
  /\ JS.mul (JS.of_nat 25) twenty_eight_hundredths
     = S754_finite false 7881299347898369 (-50)
  /\ JS.ceil (JS.mul (JS.of_nat 25) twenty_eight_hundredths) = JS.Int 8.
Proof. repeat split; vm_compute; congruence. Qed.

(** With nobody in game the threshold is the minimum, 2. *)
Example threshold_of_nobody :
  voteRequired (sample_option 30000) empty_lobby = JS.Int 2.
Proof. vm_compute; reflexivity. Qed.

(** The third vote does not pass; the fourth passes and aborts once. *)
Example fourth_vote_aborts :
  calls_of (run (sample_option 30000) sample_toString
              [(lobby_of 8 0, abort_vote 4)]
              (state_after (sample_option 30000) two_votes_of_eight))
  = [SendMessage "bot : match abort progress: 3 / 4"]
  /\ calls_of (run (sample_option 30000) sample_toString
                 [(lobby_of 8 0, abort_vote 4); (lobby_of 8 0, abort_vote 5)]
                 (state_after (sample_option 30000) two_votes_of_eight))
     = [SendMessage "bot : match abort progress: 3 / 4";
        SendMessage "bot : match abort progress: 4 / 4"; AbortMatch].
Proof. split; vm_compute; reflexivity. Qed.

(** Five in game, rate 8/10: the fourth completion sets the timer. *)
Example fourth_completion_arms :
  autoAbortRequired (sample_option 30000) (lobby_of 5 4) = JS.Int 4
  /\ abortTimer (state_after (sample_option 30000) four_of_five_finished)
     = Some 0%nat
  /\ pending (state_after (sample_option 30000) four_of_five_finished)
     = {[0%nat := 30000]}.
Proof. repeat split; vm_compute; reflexivity. Qed.

(** One vote of three is not enough; when a player who has not voted
    leaves, the same vote is one of two and the match is aborted. *)
Example leaving_player_passes_vote :
  VoteCounter.passed (voting (state_after lenient_option one_vote_of_three))
  = false
  /\ onPlayerLeft lenient_option sample_toString lobby_without_3 3
       (state_after lenient_option one_vote_of_three)
     = (tt,
        set_voting
          (VoteCounter.RemoveVoter 3
             (voting (state_after lenient_option one_vote_of_three)))
          (state_after lenient_option one_vote_of_three),
        [AbortMatch]).
Proof. split; vm_compute; reflexivity. Qed.

(** When the vote passes because a player left and enough players
    have finished, the abort is followed by [checkAutoAbort], which
    finds no handle and sets a timer. *)
Example leaving_player_aborts_then_arms :
  calls_of
    (onPlayerLeft lenient_option sample_toString lobby_without_3_finished 3
       (state_after lenient_option one_vote_of_three))
  = [AbortMatch]
  /\ abortTimer
       (state_of
          (onPlayerLeft lenient_option sample_toString
             lobby_without_3_finished 3
             (state_after lenient_option one_vote_of_three)))
     = Some 0%nat.
Proof. split; vm_compute; reflexivity. Qed.

(** Three of five finished is not enough; when the lobby is down to
    those three, the player leaving sets the timer. *)
Example leaving_player_arms_timer :
  abortTimer (state_after (sample_option 30000) three_of_five_finished) = None
  /\ onPlayerLeft (sample_option 30000) sample_toString (lobby_of 3 3) 5
       (state_after (sample_option 30000) three_of_five_finished)
     = (tt,
        armed (sample_option 30000)
          (update_voting (VoteCounter.RemoveVoter 5)
             (state_after (sample_option 30000) three_of_five_finished)),
        []).
Proof. split; vm_compute; reflexivity. Qed.

(** Votes cast and a timer set; when the lobby is empty after a player
    left, no vote, no handle and no pending timer remain. *)
Example last_player_leaves :
  abortTimer (state_after (sample_option 30000) votes_and_timer) = Some 0%nat
  /\ VoteCounter.votes (voting (state_after (sample_option 30000) votes_and_timer))
     = {[2%nat; 3%nat]}
  /\ onPlayerLeft (sample_option 30000) sample_toString empty_lobby 2
       (state_after (sample_option 30000) votes_and_timer)
     = (tt,
        {| abortTimer := None;
           voting :=
             VoteCounter.Clear
               (VoteCounter.RemoveVoter 2
                  (voting (state_after (sample_option 30000) votes_and_timer)));
           pending := ∅; nextHandle := 1 |},
        []).
Proof. repeat split; vm_compute; reflexivity. Qed.

(** The timer runs while its handle is held: one abort.  [*abort]
    aborts with authority 2 and does nothing with authority 1. *)
Example timer_and_elevated_command_abort :
  handle (sample_option 30000) sample_toString (lobby_of 5 4) (TimerDue 0)
    (state_after (sample_option 30000) four_of_five_finished)
  = (tt,
     disarmed (state_after (sample_option 30000) four_of_five_finished),
     [AbortMatch])
  /\ calls_of
       (handle (sample_option 30000) sample_toString (lobby_of 8 0)
          (elevated_abort 2)
          (state_after (sample_option 30000) two_votes_of_eight))
     = [AbortMatch]
  /\ calls_of
       (handle (sample_option 30000) sample_toString (lobby_of 8 0)
          (elevated_abort 1)
          (state_after (sample_option 30000) two_votes_of_eight))
     = [].
Proof. repeat split; vm_compute; reflexivity. Qed.

(** *** Where the code departs from the specification *)

(** C1, counterexample. Two of eight players have voted when the
    host sends [!abort]: the lobby is asked to abort, and the two
    votes are still there afterwards. *)
Lemma abort_keeps_votes :
  calls_of (handle (sample_option 30000) sample_toString (lobby_of 8 0)
              host_abort
              (state_after (sample_option 30000) two_votes_of_eight))
  = [AbortMatch]
  /\ VoteCounter.votes
       (voting
          (state_of
             (handle (sample_option 30000) sample_toString (lobby_of 8 0)
                host_abort
                (state_after (sample_option 30000) two_votes_of_eight))))
     = {[2%nat; 3%nat]}
  /\ VoteCounter.votes
       (voting
          (state_of
             (doAbort
                (state_after (sample_option 30000) two_votes_of_eight))))
     <> ∅.
Proof.
  split; [| split].
  - vm_compute; reflexivity.
  - vm_compute; reflexivity.
  - intros H. apply (f_equal size) in H. vm_compute in H. discriminate.
Qed.

(** C7, counterexample. One of three players has voted when the
    match finishes: the vote is still there afterwards. *)
Lemma match_finished_keeps_votes :
  VoteCounter.votes
    (voting
       (state_of
          (handle lenient_option sample_toString (lobby_of 3 3)
             MatchFinished
             (state_after lenient_option one_vote_of_three))))
  = {[2%nat]}
  /\ VoteCounter.votes
       (voting
          (state_of
             (handle lenient_option sample_toString (lobby_of 3 3)
                MatchFinished
                (state_after lenient_option one_vote_of_three))))
     <> ∅.
Proof.
  split.
  - vm_compute; reflexivity.
  - intros H. apply (f_equal size) in H. vm_compute in H. discriminate.
Qed.

(** C4, counterexample. Delay 0, five in game, four finished, which
    is enough: the progress signal does not ask the lobby to abort. *)
Lemma zero_delay_does_not_abort :
  auto_abort_delay_ms (sample_option 0) = 0
  /\ autoAbortRequired (sample_option 0) (lobby_of 5 4) = JS.Int 4
  /\ size (playersFinished (lobby_of 5 4)) = 4%nat
  /\ autoAbortDue (sample_option 0) (lobby_of 5 4) = true
  /\ calls_of (run (sample_option 0) sample_toString
                 four_of_five_finished (init (sample_option 0)))
     = []
  /\ aborts (calls_of
               (onPlayerFinished (sample_option 0) (lobby_of 5 4) 4 0 true 4 5
                  (state_after (sample_option 0) [(lobby_of 5 0, MatchStarted)])))
     = 0%nat.
Proof. repeat split; vm_compute; congruence. Qed.

(** C5, counterexample. Rate [0.6666666666666667], three in game,
    two finished, no timer held, delay 30000: two is less than the
    ceiling of the exact product, which is 3, yet the progress signal
    sets the timer, because the product the code computes is rounded
    to 2. *)
Lemma rounded_product_arms :
  abortTimer (state_after two_thirds_option [(lobby_of 3 0, MatchStarted)])
  = None
  /\ Z.of_nat (size (playersFinished (lobby_of 3 2)))
     < Qceiling
         (inject_Z (Z.of_nat (size (playersInGame (lobby_of 3 2))))
          * JS.value (auto_abort_rate two_thirds_option))
  /\ abortTimer
       (state_of
          (onPlayerFinished two_thirds_option (lobby_of 3 2) 2 0 true 2 3
             (state_after two_thirds_option [(lobby_of 3 0, MatchStarted)])))
     = Some 0%nat
  /\ pending
       (state_of
          (onPlayerFinished two_thirds_option (lobby_of 3 2) 2 0 true 2 3
             (state_after two_thirds_option [(lobby_of 3 0, MatchStarted)])))
     = {[0%nat := 30000]}.
Proof. repeat split; vm_compute; congruence. Qed.

(** C3, counterexample. Rate [0.6666666666666667], which lies in
    (0, 1], minimum 1, three in game: the ceiling of the larger of the
    exact product and the minimum is 3, and [voteRequired] is 2. *)
Lemma voteRequired_rounds_product :
  (0 < JS.value (vote_rate two_thirds_option))%Q
  /\ (JS.value (vote_rate two_thirds_option) <= 1)%Q
  /\ Qceiling
       (Qmax (inject_Z (Z.of_nat (size (playersInGame (lobby_of 3 0))))
              * JS.value (vote_rate two_thirds_option))
             (JS.value (vote_min two_thirds_option)))
     = 3
  /\ voteRequired two_thirds_option (lobby_of 3 0) = JS.Int 2.
Proof. repeat split; vm_compute; congruence. Qed.

(** C6, counterexample. Players 1 and 2 play and player 3 joins the
    lobby during the match; the timer is set when player 1 finishes.
    When players 1 and 2 have left, the roster is empty, and the
    timer is still held and pending: the lobby is not empty. *)
Lemma empty_roster_keeps_watchdog :
  VoteCounter.roster
    (voting
       (state_of
          (handle half_finished_option sample_toString joiner_alone
             (PlayerLeft 2)
             (state_after half_finished_option roster_leaves_joiner_stays))))
  = ∅
  /\ abortTimer
       (state_of
          (handle half_finished_option sample_toString joiner_alone
             (PlayerLeft 2)
             (state_after half_finished_option roster_leaves_joiner_stays)))
     = Some 0%nat
  /\ pending
       (state_of
          (handle half_finished_option sample_toString joiner_alone
             (PlayerLeft 2)
             (state_after half_finished_option roster_leaves_joiner_stays)))
     = {[0%nat := 30000]}.
Proof. repeat split; vm_compute; reflexivity. Qed.

(** *** The theorems at concrete inputs *)

(** C2 at the plugin that set timer 0 on the fourth completion of
    five: after [stopTimer], and a further completion, timer 0 does
    not run. *)
Lemma watchdog_no_stale_fire_witness :
  abortTimer
    (state_of (run (sample_option 30000) sample_toString
                 four_of_five_finished (init (sample_option 30000))))
  = Some 0%nat
  /\ handle (sample_option 30000) sample_toString (lobby_of 5 5)
       (TimerDue 0)
       (state_of
          (run (sample_option 30000) sample_toString
             [(lobby_of 5 5, finished 5 5 5)]
             (state_of
                (stopTimer
                   (state_of
                      (run (sample_option 30000) sample_toString
                         four_of_five_finished
                         (init (sample_option 30000))))))))
     = (tt,
        state_of
          (run (sample_option 30000) sample_toString
             [(lobby_of 5 5, finished 5 5 5)]
             (state_of
                (stopTimer
                   (state_of
                      (run (sample_option 30000) sample_toString
                         four_of_five_finished
                         (init (sample_option 30000))))))),
        []).
Proof.
  assert (Hheld :
    abortTimer
      (state_of (run (sample_option 30000) sample_toString
                   four_of_five_finished (init (sample_option 30000))))
    = Some 0%nat) by (vm_compute; reflexivity).
  split; [exact Hheld |].
  pose proof (watchdog_no_stale_fire (sample_option 30000) sample_toString
                four_of_five_finished 0%nat Hheld) as W.
  cbv zeta in W. destruct W as [[W _] _].
  exact (W [(lobby_of 5 5, finished 5 5 5)] (lobby_of 5 5)).
Defined.

(** C4 at delay 0 with four of five finished. *)
Lemma zero_delay_disables_auto_abort_witness :
  auto_abort_delay_ms (sample_option 0) = 0
  /\ onPlayerFinished (sample_option 0) (lobby_of 5 4) 4 0 true 4 5
       (init (sample_option 0))
     = (tt, init (sample_option 0), []).
Proof.
  split; [reflexivity |].
  apply (zero_delay_disables_auto_abort (sample_option 0)). reflexivity.
Defined.

(** C6 at the three players of whom one voted, when player 3
    leaves. *)
Lemma player_left_reevaluates_witness :
  isMatching lobby_without_3 = true
  /\ calls_of
       (onPlayerLeft lenient_option sample_toString lobby_without_3 3
          (state_after lenient_option one_vote_of_three))
     = (if VoteCounter.passed
             (VoteCounter.RemoveVoter 3
                (voting (state_after lenient_option one_vote_of_three)))
        then [AbortMatch] else []).
Proof.
  split; [reflexivity |].
  pose proof (player_left_reevaluates lenient_option sample_toString
                lobby_without_3 3
                (state_after lenient_option one_vote_of_three)
                eq_refl) as W.
  cbv zeta in W. destruct W as (_ & W & _). exact W.
Defined.

(** C10 at the plugin that holds timer 0, for the fifth completion
    delivered twice. *)
Lemma held_timer_not_rearmed_witness :
  abortTimer (state_after (sample_option 30000) four_of_five_finished)
  <> None
  /\ run (sample_option 30000) sample_toString
       [(lobby_of 5 5, finished 5 5 5); (lobby_of 5 5, finished 5 5 5)]
       (state_after (sample_option 30000) four_of_five_finished)
     = (tt, state_after (sample_option 30000) four_of_five_finished, []).
Proof.
  assert (Hheld :
    abortTimer (state_after (sample_option 30000) four_of_five_finished)
    <> None) by (vm_compute; discriminate).
  split; [exact Hheld |].
  apply (held_timer_not_rearmed (sample_option 30000) sample_toString
           (lobby_of 5 5) _ _ Hheld).
  reflexivity.
Defined.

End MatchAborterProofs.

(** ** MatchAborter: commands, deliveries, timers *)

Module MatchAborterMoreProofs.
Import MatchAborter MatchAborterMore MatchAborterProofs.

Section Plugin.

Context (opt : MatchAborterOption).
Context (toString : VoteCounter.t -> string).

(** *** Commands *)

(** What a command does, case by case. *)
Lemma onCustomCommand_eq lobby p auth command param st :
  onCustomCommand toString lobby p auth command param st =
  if dropped lobby p auth command st then (tt, st, [])
  else if privileged lobby p auth command then (tt, disarmed st, [AbortMatch])
  else if fst (VoteCounter.Vote p (voting st))
       then checkVoteCount toString true
              (set_voting (snd (VoteCounter.Vote p (voting st))) st)
       else (tt, set_voting (snd (VoteCounter.Vote p (voting st))) st, []).
Proof.
  unfold onCustomCommand, dropped, privileged.
  destruct (isMatching lobby); [| reflexivity]. cbn [negb orb].
  destruct (String.eqb command "!abort") eqn:Hc.
  - apply String.eqb_eq in Hc as ->. cbn [String.eqb Ascii.eqb Bool.eqb andb negb orb].
    destruct (bool_decide (Some p = host lobby)); cbn [andb negb orb].
    + apply doAbort_eq.
    + rewrite vote_eq. by destruct (VoteCounter.passed (voting st)).
  - cbn [negb andb orb].
    destruct (2 <=? auth), (String.eqb command "*abort"); cbn [negb andb orb];
      try reflexivity.
    apply doAbort_eq.
Qed.

(** X4. A command is dropped without any effect when no match is
    running, when it is neither [!abort] nor an [*abort] of authority
    2 or more, or when it is a [!abort] vote arriving after the vote
    has passed. *)
Theorem dropped_command_has_no_effect lobby p auth command param st :
  dropped lobby p auth command st = true ->
  onCustomCommand toString lobby p auth command param st = (tt, st, []).
Proof. intros Hd. by rewrite onCustomCommand_eq, Hd. Qed.

Lemma aborts_checkVoteCount show st :
  aborts (calls_of (checkVoteCount toString show st))
  = (if VoteCounter.passed (voting st) then 1%nat else 0%nat)
  /\ messages (calls_of (checkVoteCount toString show st))
     = (if negb (VoteCounter.count (voting st) =? 0) && show
        then 1%nat else 0%nat)
  /\ voting (state_of (checkVoteCount toString show st)) = voting st.
Proof.
  rewrite checkVoteCount_eq. unfold calls_of, state_of, progress. cbn [fst snd].
  destruct (negb (VoteCounter.count (voting st) =? 0) && show),
    (VoteCounter.passed (voting st)); repeat split.
Qed.

(** X3. A command makes the lobby abort only during a match, and only
    on authority (the host's [!abort], or [*abort] with authority 2
    or more) or on a [!abort] vote that the counter accepts and that
    leaves the count passed. *)
Theorem abort_needs_authority_or_quorum lobby p auth command param st :
  (0 < aborts (calls_of
                 (onCustomCommand toString lobby p auth command param st)))%nat ->
  isMatching lobby = true
  /\ (privileged lobby p auth command = true
      \/ (command = "!abort"
          /\ VoteCounter.passed (voting st) = false
          /\ fst (VoteCounter.Vote p (voting st)) = true
          /\ VoteCounter.passed
               (voting (state_of
                  (onCustomCommand toString lobby p auth command param st)))
             = true)).
Proof.
  rewrite onCustomCommand_eq.
  destruct (dropped lobby p auth command st) eqn:Hd; [cbn; intros; lia |].
  unfold dropped in Hd.
  apply orb_false_iff in Hd as [Hd Hpassed].
  apply orb_false_iff in Hd as [Hm Hknown].
  apply negb_false_iff in Hm. intros Hab. split; [done |].
  destruct (privileged lobby p auth command) eqn:Hpriv; [by left | right].
  assert (Hc : command = "!abort").
  { unfold privileged in Hpriv. apply orb_false_iff in Hpriv as [_ Hstar].
    rewrite Hstar in Hknown. cbn in Hknown.
    rewrite andb_true_r in Hknown. apply negb_false_iff in Hknown.
    by apply String.eqb_eq. }
  assert (Hnp : VoteCounter.passed (voting st) = false).
  { unfold privileged in Hpriv. apply orb_false_iff in Hpriv as [Hhost _].
    subst command. cbn in Hhost, Hpassed. rewrite Hhost in Hpassed.
    exact Hpassed. }
  destruct (fst (VoteCounter.Vote p (voting st))) eqn:Hacc; [| cbn in Hab; lia].
  destruct (aborts_checkVoteCount true
              (set_voting (snd (VoteCounter.Vote p (voting st))) st))
    as (Ha & _ & Hv).
  rewrite Ha in Hab. rewrite Hv. cbn [voting set_voting] in *.
  destruct (VoteCounter.passed (snd _)); [done | lia].
Qed.

(** *** Deliveries *)

Lemma aborts_cons e out :
  aborts (e :: out)
  = match e with
    | AbortMatch => S (aborts out)
    | SendMessage _ => aborts out
    end.
Proof.
  unfold aborts. rewrite filter_cons. destruct e; by case_decide.
Qed.

Lemma messages_cons e out :
  messages (e :: out)
  = match e with
    | AbortMatch => messages out
    | SendMessage _ => S (messages out)
    end.
Proof.
  unfold messages. rewrite filter_cons. destruct e; by case_decide.
Qed.


(** Counts the lobby calls of a literal list and closes the goal. *)
Ltac count_calls :=
  unfold calls_of, progress, mret, M_ret; cbn [fst snd app];
  rewrite ?aborts_cons, ?messages_cons;
  change (aborts []) with 0%nat; change (messages []) with 0%nat;
  repeat split; (lia || (intros ?; lia) || reflexivity).

(** X5. One delivery asks the lobby to abort at most once and to
    send at most one chat message; the only delivery that sends a
    message is a [!abort] during a match, from a player who is not the
    host, that the counter accepts as a vote; and a match start, a
    progress signal and a match end call nothing at all. *)
Theorem delivery_calls_bounded lobby ev st :
  (aborts (calls_of (handle opt toString lobby ev st)) <= 1)%nat
  /\ (messages (calls_of (handle opt toString lobby ev st)) <= 1)%nat
  /\ (messages (calls_of (handle opt toString lobby ev st)) <> 0%nat ->
      exists p auth param,
        ev = ReceivedCustomCommand p auth "!abort" param
        /\ isMatching lobby = true
        /\ Some p <> host lobby
        /\ fst (VoteCounter.Vote p (voting st)) = true)
  /\ match ev with
     | MatchStarted | PlayerFinished _ _ _ _ _ | MatchFinished =>
         calls_of (handle opt toString lobby ev st) = []
     | _ => True
     end.
Proof.
  destruct ev as [p | | p score ip nf ng | | p auth command param | h];
    simpl handle.
  - destruct (isMatching lobby) eqn:Hm.
    + rewrite onPlayerLeft_eq by done. unfold calls_of; cbn [snd].
      destruct (VoteCounter.passed _); count_calls.
    + rewrite onPlayerLeft_idle by done. count_calls.
  - rewrite onMatchStarted_eq. count_calls.
  - rewrite onPlayerFinished_eq. count_calls.
  - unfold onMatchFinished. rewrite stopTimer_eq. count_calls.
  - rewrite onCustomCommand_eq.
    destruct (dropped lobby p auth command st) eqn:Hd;
      [count_calls |].
    destruct (privileged lobby p auth command) eqn:Hpriv;
      [count_calls |].
    destruct (fst (VoteCounter.Vote p (voting st))) eqn:Hacc;
      [| count_calls].
    destruct (aborts_checkVoteCount true
                (set_voting (snd (VoteCounter.Vote p (voting st))) st))
      as (Ha & Hmsg & _).
    rewrite Ha, Hmsg. split; [| split; [| split; [| done]]].
    + destruct (VoteCounter.passed _); lia.
    + destruct (negb _ && true); lia.
    + intros _. exists p, auth, param.
      unfold dropped in Hd.
      apply orb_false_iff in Hd as [Hd _].
      apply orb_false_iff in Hd as [Hm Hknown].
      apply negb_false_iff in Hm.
      unfold privileged in Hpriv. apply orb_false_iff in Hpriv as [Hhost Hstar].
      rewrite Hstar, andb_true_r in Hknown. apply negb_false_iff in Hknown.
      rewrite Hknown in Hhost. cbn in Hhost.
      apply String.eqb_eq in Hknown as ->.
      apply bool_decide_eq_false in Hhost. done.
  - unfold onTimerDue. rewrite bind_unfold.
    unfold gets, value_of, state_of, calls_of; cbn [fst snd].
    destruct (pending st !! h);
      [| count_calls].
    rewrite seq_unfold, abortTimerAction_eq.
    unfold clearTimeout, modify, value_of, state_of, calls_of; cbn [fst snd].
    cbn [abortTimer app].
    destruct (abortTimer st); count_calls.
Qed.

(** *** The timer and the handle *)

(** A property of the state kept by disarming, arming, a change of
    the votes, and a pending timer running is kept by every
    delivery. *)
Lemma handle_preserves_due (P : State -> Prop) :
  (forall s, P s -> P (disarmed s)) ->
  (forall s, auto_abort_delay_ms opt <> 0 -> P s -> P (armed opt s)) ->
  (forall s v, P s -> P (set_voting v s)) ->
  (forall s h, P s -> is_Some (pending s !! h) ->
               P (disarmed (state_of (clearTimeout h s)))) ->
  forall lobby ev s, P s -> P (state_of (handle opt toString lobby ev s)).
Proof.
  intros Hdis Harmed Hvote Hdue lobby ev s Hs.
  assert (Hauto : forall lobby s, P s ->
            P (if arms opt lobby s then armed opt s else s)).
  { intros l s' Hs'. destruct (arms opt l s') eqn:Ha; [| done].
    apply Harmed; [| done]. unfold arms in Ha.
    apply andb_true_iff in Ha as [_ Ha]. apply negb_true_iff in Ha. lia. }
  assert (Hpass : forall s, P s ->
            P (if VoteCounter.passed (voting s) then disarmed s else s)).
  { intros s' Hs'. destruct (VoteCounter.passed _); auto. }
  destruct ev as [p | | p score ip nf ng | | p auth command param | h];
    simpl handle.
  - destruct (isMatching lobby) eqn:Hm.
    + rewrite onPlayerLeft_eq by done. unfold state_of; cbn [fst snd].
      destruct (Z.of_nat (size (players lobby)) =? 0).
      * apply Hdis, Hvote, Hauto, Hpass, Hvote, Hs.
      * apply Hauto, Hpass, Hvote, Hs.
    + by rewrite onPlayerLeft_idle.
  - rewrite onMatchStarted_eq. apply Hvote, Hs.
  - rewrite onPlayerFinished_eq. apply Hauto, Hs.
  - unfold onMatchFinished. rewrite stopTimer_eq. apply Hdis, Hs.
  - rewrite onCustomCommand_eq.
    destruct (dropped _ _ _ _ _); [done |].
    destruct (privileged _ _ _ _); [apply Hdis, Hs |].
    destruct (fst _).
    + rewrite checkVoteCount_eq. apply Hpass, Hvote, Hs.
    + apply Hvote, Hs.
  - unfold onTimerDue. rewrite bind_unfold.
    unfold gets, value_of, state_of, calls_of; cbn [fst snd].
    destruct (pending s !! h) eqn:Hin; [| done].
    rewrite seq_unfold, abortTimerAction_eq.
    unfold value_of, state_of, calls_of; cbn [fst snd].
    apply (Hdue s h Hs). by rewrite Hin.
Qed.

Lemma timer_inv_preserved lobby ev s :
  timer_inv opt s ->
  timer_inv opt (state_of (handle opt toString lobby ev s)).
Proof.
  assert (Hempty : forall s', timer_inv opt s' -> pending (disarmed s') = ∅).
  { intros s'. unfold timer_inv, disarmed; cbn [pending].
    destruct (abortTimer s') as [h |].
    - intros (-> & _ & _). apply delete_singleton_eq.
    - done. }
  apply handle_preserves_due.
  - intros s' Hs'. specialize (Hempty s' Hs'). by unfold timer_inv.
  - intros s' Hd Hs'. unfold timer_inv, armed; cbn [abortTimer pending nextHandle].
    rewrite (Hempty s' Hs'). repeat split; [lia | done].
  - intros s' v Hs'. exact Hs'.
  - intros s' h Hs' [d Hin]. unfold timer_inv.
    cbn [abortTimer disarmed]. unfold disarmed, state_of; cbn.
    unfold timer_inv in Hs'.
    destruct (abortTimer s') as [h' |].
    + destruct Hs' as (Hp & _ & _). rewrite Hp in *.
      apply lookup_singleton_Some in Hin as [<- _].
      by rewrite delete_delete_eq, delete_singleton_eq.
    + rewrite Hs' in Hin. by rewrite lookup_empty in Hin.
Qed.

Lemma timer_inv_reachable hist :
  timer_inv opt (state_of (run opt toString hist (init opt))).
Proof.
  apply (run_preserves opt toString (timer_inv opt)).
  - intros. by apply timer_inv_preserved.
  - reflexivity.
Qed.

(** X1. In every state the plugin reaches from its construction, it
    holds a timer handle exactly while that timer is pending: with a
    handle held, that timer is the only pending one, it was set for
    the configured delay, the delay is not 0 and the handle is one the
    runtime has given out; with no handle held, no timer is pending.
    So at most one timer is ever pending. *)
Theorem handle_held_iff_timer_pending hist :
  match abortTimer (state_of (run opt toString hist (init opt))) with
  | Some h =>
      pending (state_of (run opt toString hist (init opt)))
      = {[h := auto_abort_delay_ms opt]}
      /\ (h < nextHandle (state_of (run opt toString hist (init opt))))%nat
      /\ auto_abort_delay_ms opt <> 0
  | None => pending (state_of (run opt toString hist (init opt))) = ∅
  end
  /\ (size (pending (state_of (run opt toString hist (init opt)))) <= 1)%nat.
Proof.
  pose proof (timer_inv_reachable hist) as Hinv. unfold timer_inv in Hinv.
  split; [exact Hinv |].
  destruct (abortTimer _).
  - destruct Hinv as (-> & _ & _). by rewrite map_size_singleton.
  - rewrite Hinv. rewrite map_size_empty. lia.
Qed.

(** X2. In every reachable state, when the runtime runs a pending
    timer, the callback's check of the handle succeeds: the lobby is
    asked to abort exactly once, the timer was the one held, set for
    the configured delay, and afterwards no handle is held and no
    timer is pending. *)
Theorem pending_timer_aborts hist lobby h d :
  pending (state_of (run opt toString hist (init opt))) !! h = Some d ->
  let st := state_of (run opt toString hist (init opt)) in
  handle opt toString lobby (TimerDue h) st = (tt, disarmed st, [AbortMatch])
  /\ abortTimer st = Some h
  /\ d = auto_abort_delay_ms opt
  /\ abortTimer (disarmed st) = None
  /\ pending (disarmed st) = ∅.
Proof.
  intros Hin. cbv zeta.
  pose proof (timer_inv_reachable hist) as Hinv. unfold timer_inv in Hinv.
  set (st := state_of (run opt toString hist (init opt))) in *.
  destruct (abortTimer st) as [h' |] eqn:Hheld.
  - destruct Hinv as (Hp & _ & _). rewrite Hp in Hin.
    apply lookup_singleton_Some in Hin as [<- <-].
    split; [| repeat split].
    + simpl handle. apply (onTimerDue_held h' (auto_abort_delay_ms opt));
        [done |]. rewrite Hp. apply lookup_singleton_eq.
    + unfold disarmed; cbn [pending]. rewrite Hheld, Hp.
      apply delete_singleton_eq.
  - rewrite Hinv in Hin. by rewrite lookup_empty in Hin.
Qed.

(** X6. Right after a match-finished event, in a reachable state,
    no handle is held and no timer is pending, so a timer the runtime
    comes to then does nothing; and whatever is delivered later, no
    timer that was set before the match finished ever runs its abort
    (only a timer set afterwards, by a later progress signal or
    departure, can). *)
Theorem no_timer_after_match_finished hist lobby :
  let st' :=
    state_of (handle opt toString lobby MatchFinished
                (state_of (run opt toString hist (init opt)))) in
  abortTimer st' = None
  /\ pending st' = ∅
  /\ (forall lobby' h,
        handle opt toString lobby' (TimerDue h) st' = (tt, st', []))
  /\ (forall h evs lobby',
        (h < nextHandle st')%nat ->
        handle opt toString lobby' (TimerDue h)
          (state_of (run opt toString evs st'))
        = (tt, state_of (run opt toString evs st'), [])).
Proof.
  cbv zeta.
  pose proof (timer_inv_preserved lobby MatchFinished _
                (timer_inv_reachable hist)) as Hinv.
  set (st' := state_of (handle opt toString lobby MatchFinished _)) in *.
  assert (Hnone : abortTimer st' = None).
  { unfold st'. simpl handle. unfold onMatchFinished.
    by rewrite stopTimer_eq. }
  unfold timer_inv in Hinv. rewrite Hnone in Hinv.
  split; [done | split; [done | split]].
  - intros lobby' h. simpl handle. apply onTimerDue_gone.
    by rewrite Hinv, lookup_empty.
  - intros h evs lobby' Hlt.
    apply (spent_never_runs opt toString h st' evs lobby').
    split; [by rewrite Hinv, lookup_empty | done].
Qed.

(** X7. In every reachable state the status text reads
    [timer : active] exactly when a timer is pending in the runtime,
    and [timer : ---] when none is. *)
Theorem status_shows_pending_timer hist :
  getPluginStatus toString (state_of (run opt toString hist (init opt)))
  = ("-- Match Aborter --" ++ newline
     ++ "      timer : "
     ++ (if bool_decide
              (pending (state_of (run opt toString hist (init opt))) = ∅)
         then "---" else "active")
     ++ newline
     ++ "      vote : "
     ++ toString (voting (state_of (run opt toString hist (init opt))))
     ++ newline
     ++ "    ")%string.
Proof.
  pose proof (timer_inv_reachable hist) as Hinv. unfold timer_inv in Hinv.
  unfold getPluginStatus.
  destruct (abortTimer _).
  - destruct Hinv as (-> & _ & _).
    rewrite bool_decide_eq_false_2; [done |]. apply map_non_empty_singleton.
  - rewrite Hinv. by rewrite bool_decide_eq_true_2.
Qed.

(** *** How many must have finished *)

(** X9. With nobody in game the requirement is 0 whatever the rate
    (a real number: not NaN, not infinite), so the condition is met
    even though nobody has finished: a progress signal then sets the
    timer when none is held and the delay is not 0. *)
Theorem nobody_in_game_arms matching h everyone finished st :
  JS.real (auto_abort_rate opt) = true ->
  autoAbortRequired opt
    {| isMatching := matching; host := h; players := everyone;
       playersInGame := ∅; playersFinished := finished |} = JS.Int 0
  /\ autoAbortDue opt
       {| isMatching := matching; host := h; players := everyone;
          playersInGame := ∅; playersFinished := finished |} = true
  /\ (abortTimer st = None ->
      auto_abort_delay_ms opt <> 0 ->
      forall p score isPassed nf ng,
        onPlayerFinished opt
          {| isMatching := matching; host := h; players := everyone;
             playersInGame := ∅; playersFinished := finished |}
          p score isPassed nf ng st
        = (tt, armed opt st, [])).
Proof.
  intros Hrate.
  assert (Hreq : autoAbortRequired opt
            {| isMatching := matching; host := h; players := everyone;
               playersInGame := ∅; playersFinished := finished |}
            = JS.Int 0).
  { unfold autoAbortRequired. cbn [playersInGame]. rewrite size_empty.
    destruct (auto_abort_rate opt); try discriminate; reflexivity. }
  assert (Hdue : autoAbortDue opt
            {| isMatching := matching; host := h; players := everyone;
               playersInGame := ∅; playersFinished := finished |} = true).
  { unfold autoAbortDue. rewrite Hreq. apply Z.leb_le. lia. }
  split; [exact Hreq | split; [exact Hdue |]].
  intros Hidle Hdelay p score isPassed nf ng.
  rewrite onPlayerFinished_eq. unfold arms. rewrite Hdue.
  rewrite bool_decide_eq_true_2 by done.
  apply Z.eqb_neq in Hdelay. by rewrite Hdelay.
Qed.

End Plugin.

(** *** The theorems at concrete inputs *)

Import Samples.

(** X2 at the plugin that set timer 0 on the fourth completion of
    five. *)
Lemma pending_timer_aborts_witness :
  pending
    (state_of (run (sample_option 30000) sample_toString
                 four_of_five_finished (init (sample_option 30000))))
    !! 0%nat = Some 30000
  /\ handle (sample_option 30000) sample_toString (lobby_of 5 4) (TimerDue 0)
       (state_of (run (sample_option 30000) sample_toString
                    four_of_five_finished (init (sample_option 30000))))
     = (tt,
        disarmed
          (state_of (run (sample_option 30000) sample_toString
                       four_of_five_finished (init (sample_option 30000)))),
        [AbortMatch]).
Proof.
  assert (Hin :
    pending
      (state_of (run (sample_option 30000) sample_toString
                   four_of_five_finished (init (sample_option 30000))))
      !! 0%nat = Some 30000) by (vm_compute; reflexivity).
  split; [exact Hin |].
  pose proof (pending_timer_aborts (sample_option 30000) sample_toString
                four_of_five_finished (lobby_of 5 4) 0%nat 30000 Hin) as W.
  cbv zeta in W. destruct W as [W _]. exact W.
Defined.

(** X3 at the host's [!abort] with two of eight votes cast. *)
Lemma abort_needs_authority_or_quorum_witness :
  (0 < aborts
         (calls_of
            (onCustomCommand sample_toString (lobby_of 8 0) 1 0 "!abort" ""
               (state_after (sample_option 30000) two_votes_of_eight))))%nat
  /\ isMatching (lobby_of 8 0) = true.
Proof.
  assert (Hab :
    (0 < aborts
           (calls_of
              (onCustomCommand sample_toString (lobby_of 8 0) 1 0 "!abort" ""
                 (state_after (sample_option 30000) two_votes_of_eight))))%nat)
    by (vm_compute; lia).
  split; [exact Hab |].
  apply (abort_needs_authority_or_quorum sample_toString _ _ _ _ _ _ Hab).
Defined.

(** X4 at [*abort] sent with authority 1. *)
Lemma dropped_command_has_no_effect_witness :
  dropped (lobby_of 8 0) 7 1 "*abort"
    (state_after (sample_option 30000) two_votes_of_eight) = true
  /\ onCustomCommand sample_toString (lobby_of 8 0) 7 1 "*abort" ""
       (state_after (sample_option 30000) two_votes_of_eight)
     = (tt, state_after (sample_option 30000) two_votes_of_eight, []).
Proof.
  split; [reflexivity |].
  apply (dropped_command_has_no_effect sample_toString). reflexivity.
Defined.

(** X9 at rate [0.8], in the empty lobby. *)
Lemma nobody_in_game_arms_witness :
  JS.real (auto_abort_rate (sample_option 30000)) = true
  /\ autoAbortDue (sample_option 30000)
       {| isMatching := true; host := None; players := ∅;
          playersInGame := ∅; playersFinished := ∅ |} = true.
Proof.
  split; [reflexivity |].
  apply (nobody_in_game_arms (sample_option 30000) true None ∅ ∅
           (init (sample_option 30000)) eq_refl).
Defined.

End MatchAborterMoreProofs.

(** ** MapRecaster: what is sent, and when *)

Module MapRecasterMoreProofs.
Import MapRecaster MapRecasterMore MapRecasterProofs.

Lemma recast_run_app evs1 : forall evs2 st,
  run (evs1 ++ evs2) st =
  (tt,
   state_of (run evs2 (state_of (run evs1 st))),
   calls_of (run evs1 st) ++ calls_of (run evs2 (state_of (run evs1 st)))).
Proof.
  induction evs1 as [| [lobby ev] rest IH]; intros evs2 st.
  - simpl. unfold mret, M_ret, state_of, calls_of. simpl.
    by destruct (run evs2 st) as [[[] s] out].
  - rewrite <- app_comm_cons, !recast_run_cons, IH. unfold state_of, calls_of.
    simpl. by rewrite app_assoc.
Qed.

(** What one delivery does, by the kind of event and the flag. *)
Lemma handle_cases lobby ev st :
  handle lobby ev st =
  if is_update ev then
    (tt, {| canRecast := false |},
     if canRecast st then [recast lobby] else [])
  else (tt, {| canRecast := canRecast st || is_selection_changed ev |}, []).
Proof.
  destruct st as [[]], ev as [c a p | []]; simpl;
    unfold onReceivedChatCommand; try destruct (String.eqb c _); reflexivity.
Qed.

Lemma update_recasts_cons lobby ev rest :
  update_recasts ((lobby, ev) :: rest)
  = if is_update ev then recast lobby :: update_recasts rest
    else update_recasts rest.
Proof.
  unfold update_recasts. rewrite filter_cons. cbn [snd].
  destruct (is_update ev).
  - by rewrite decide_True.
  - by rewrite decide_False.
Qed.

(** X10. Whatever the history, the plugin calls the lobby only to
    send recast messages: its calls are, in order, recast messages of
    [!update] commands of the history, each command answered at most
    once and with the map of the lobby at the time of that command.
    It never asks for an abort. *)
Theorem only_recasts_are_sent evs : forall st,
  calls_of (run evs st) `sublist_of` update_recasts evs
  /\ aborts (calls_of (run evs st)) = 0%nat.
Proof.
  induction evs as [| [lobby ev] rest IH]; intros st.
  - split; [apply sublist_nil | reflexivity].
  - rewrite recast_run_cons, update_recasts_cons, handle_cases.
    destruct (is_update ev).
    + destruct (IH {| canRecast := false |}) as [Hsub Hab].
      unfold calls_of, state_of in *; cbn [fst snd] in *.
      destruct (canRecast st); cbn [app].
      * split; [by apply sublist_skip |].
        unfold aborts, recast in *. rewrite filter_cons.
        by rewrite decide_False.
      * split; [by apply sublist_cons | done].
    + destruct (IH {| canRecast := canRecast st || is_selection_changed ev |})
        as [Hsub Hab].
      unfold calls_of, state_of in *; cbn [fst snd app] in *. by split.
Qed.

Lemma quiet_history evs : forall st,
  forallb (fun e => negb (is_update (snd e))) evs = true ->
  calls_of (run evs st) = []
  /\ (canRecast st = true -> canRecast (state_of (run evs st)) = true).
Proof.
  induction evs as [| [lobby ev] rest IH]; intros st Hq.
  - by split.
  - cbn [forallb snd] in Hq. apply andb_true_iff in Hq as [Hev Hrest].
    apply negb_true_iff in Hev.
    rewrite recast_run_cons, handle_cases, Hev.
    unfold state_of, calls_of; cbn [fst snd app].
    destruct (IH {| canRecast := canRecast st || is_selection_changed ev |}
                Hrest) as [Hcalls Hflag].
    unfold state_of, calls_of in *. split; [done |].
    intros Hset. apply Hflag. cbn. by rewrite Hset.
Qed.

(** X11. A recast is always available after a beatmap change: after
    any history, once the beatmap has changed, the next [!update]
    (whatever comes in between, as long as it is no [!update]) sends
    exactly one recast message, for the map the lobby then has. *)
Theorem update_after_change_recasts evs l1 between l2 param player st :
  forallb (fun e => negb (is_update (snd e))) between = true ->
  calls_of
    (run (evs ++ (l1, ReceivedBanchoResponse BeatmapChanged) :: between
              ++ [(l2, ReceivedChatCommand "!update" param player)]) st)
  = calls_of (run evs st) ++ [recast l2].
Proof.
  intros Hq. rewrite recast_run_app. unfold calls_of at 1; cbn [snd].
  f_equal. rewrite recast_run_cons. unfold calls_of at 1; cbn [snd].
  cbn [handle onReceivedBanchoResponse].
  unfold modify at 1 2. unfold calls_of at 1, state_of at 1. cbn [fst snd app].
  rewrite recast_run_app. unfold calls_of at 1; cbn [snd].
  destruct (quiet_history between {| canRecast := true |} Hq) as [-> Hflag].
  specialize (Hflag eq_refl). cbn [app].
  rewrite recast_run_cons, handle_cases. cbn [is_update String.eqb].
  unfold calls_of, state_of in *. cbn [fst snd].
  destruct (run between {| canRecast := true |}) as [[u s'] out]. cbn in *.
  by rewrite Hflag.
Qed.

(** X11 at the empty history, with one other command between the
    change to map 42 and the [!update]. *)
Lemma update_after_change_recasts_witness :
  forallb (fun e => negb (is_update (snd e))) [(lobby_on 42, other_command)]
  = true
  /\ calls_of
       (run ([] ++ (lobby_on 42, ReceivedBanchoResponse BeatmapChanged)
                :: [(lobby_on 42, other_command)]
                ++ [(lobby_on 42, ReceivedChatCommand "!update" "" 2)])
          {| canRecast := false |})
     = calls_of (run [] {| canRecast := false |}) ++ [recast (lobby_on 42)].
Proof.
  split; [reflexivity |].
  apply (update_after_change_recasts [] (lobby_on 42)
           [(lobby_on 42, other_command)] (lobby_on 42) "" 2
           {| canRecast := false |}).
  reflexivity.
Defined.

End MapRecasterMoreProofs.
